(** * esbuild-hmr: the module graph and the hot-update pipeline of the server

    A shallow embedding of the development server (the variant with reverse
    dependencies): the construction of the [parents] sets in the plugin's
    [build.onEnd], the traversal [getReverseDependencies], the module wrapper
    [transformCode] and the file-watcher's change handler.

    Conventions of the embedding.
    - A JavaScript string is a [string]; every [ascii] stands for one code
      unit.
    - A plain JavaScript object used as a record of string keys is an
      association list in insertion order (the order [Object.entries]
      walks); keys are assumed not to be canonical array indices and not to
      name a property of [Object.prototype].
    - A [Set] is the list of its elements in insertion order, which is the
      order [Set.prototype.forEach] visits them.
    - A promise chain is run to completion: state, effects and a completion
      are threaded explicitly. In [handler] no other callback runs before the
      chain has ended; [handlerAmid] runs the same chain with other callbacks
      at work on [sharedState] while a link awaits, and is [handler] when
      there are none. *)

From Stdlib Require Import List String Ascii Arith Bool Lia PeanoNat.
From Stdlib Require Import Decimal DecimalString.
From Stdlib Require DecimalNat DecimalFacts.
From Stdlib Require Import Relation_Definitions Relation_Operators.
Import ListNotations.
Open Scope string_scope.
Open Scope list_scope.

(** String concatenation, as in template literals. *)
Infix "+++" := String.append (right associativity, at level 60).

(** ** JavaScript values the server uses *)

Definition dquote : string := String (ascii_of_nat 34) EmptyString.
Definition nl : string := String (ascii_of_nat 10) EmptyString.

(** Objects keyed by strings, in insertion order. *)
Module JsObject.

Definition t (V : Type) : Type := list (string * V).

(** [o[k]]: the value stored under [k], [None] for [undefined]. *)
Fixpoint get {V : Type} (o : t V) (k : string) : option V :=
  match o with
  | [] => None
  | (k', v) :: rest => if String.eqb k k' then Some v else get rest k
  end.

(** [o[k] = v]: overwrites in place, or appends a new key. *)
Fixpoint set {V : Type} (o : t V) (k : string) (v : V) : t V :=
  match o with
  | [] => [(k, v)]
  | (k', v') :: rest =>
      if String.eqb k k' then (k', v) :: rest else (k', v') :: set rest k v
  end.

(** Mutation of the object stored under [k] (which must exist to matter). *)
Fixpoint update {V : Type} (o : t V) (k : string) (f : V -> V) : t V :=
  match o with
  | [] => []
  | (k', v) :: rest =>
      if String.eqb k k' then (k', f v) :: rest else (k', v) :: update rest k f
  end.

End JsObject.

(** [Set<string>], in insertion order. *)
Module JsSet.

Definition t : Type := list string.

Definition empty : t := [].

Definition has (s : t) (x : string) : bool := existsb (String.eqb x) s.

Definition add (s : t) (x : string) : t := if has s x then s else s ++ [x].

End JsSet.

(** ** The metafile, extended with [parents] *)

Inductive ImportKind : Type :=
| entry_point | import_statement | require_call | dynamic_import
| require_resolve | import_rule | composes_from | url_token.

Inductive Format : Type := cjs | esm.

Record ImportEntry : Type := mkImport {
  path : string;
  kind : ImportKind;
  external : option bool;
  original : option string
}.

Record ModuleInfo : Type := mkModuleInfo {
  bytes : nat;
  parents : option JsSet.t;
  imports : list ImportEntry;
  format : option Format
}.

(** [esbuild.Metafile]; [outputs] is never read by the server. *)
Record ModuleMeta : Type := mkModuleMeta {
  inputs : JsObject.t ModuleInfo
}.

Definition with_parents (m : ModuleInfo) (s : JsSet.t) : ModuleInfo :=
  {| bytes := bytes m; parents := Some s; imports := imports m; format := format m |}.

(** ** Observable effects *)

Definition WebSocket : Type := nat.

Inductive Error : Type :=
| TypeError (message : string)
| RangeError (message : string)
| Rejected (reason : string).

Inductive Effect : Type :=
| console_log (args : list string)
| console_log_metafile (metafile : ModuleMeta)
| console_warn (text : string)
| console_error (label : string) (error : Error)
| swc_transform (file filename : string) (runtimeModule : bool)
    (importPaths : JsObject.t string)
| socket_send (socket : WebSocket) (message : string)
| context_rebuild.

(** ** Graph construction: the loop of [build.onEnd] *)

(** The body of [moduleInfo.imports.forEach(({ path }) => ...)]. *)
Definition addParent (filename : string)
    (acc : JsObject.t ModuleInfo * list Effect) (imp : ImportEntry)
    : JsObject.t ModuleInfo * list Effect :=
  let (ins, out) := acc in
  match JsObject.get ins (path imp) with
  | None => (ins, out ++ [console_warn (path imp +++ " is not exist in metafile")])
  | Some _ =>
      (JsObject.update ins (path imp) (fun m =>
         with_parents m
           (JsSet.add (match parents m with Some s => s | None => JsSet.empty end)
                      filename)),
       out ++ [console_log ["parent " +++ filename +++ ", child: " +++ path imp]])
  end.

(** The body of [Object.entries(metafile.inputs).forEach(([filename,
    moduleInfo]) => ...)]. *)
Definition addParentsOf (acc : JsObject.t ModuleInfo * list Effect)
    (entry : string * ModuleInfo) : JsObject.t ModuleInfo * list Effect :=
  fold_left (addParent (fst entry)) (imports (snd entry)) acc.

(** The entries are a snapshot; the objects they point to only gain
    [parents], so the [imports] walked are those of the snapshot. *)
Definition buildParents (ins : JsObject.t ModuleInfo)
    : JsObject.t ModuleInfo * list Effect :=
  fold_left addParentsOf ins (ins, []).

(** ** Reverse dependencies *)

(** [sharedState.moduleMeta.inputs[targetModule]?.parents]; a [Set] is
    truthy even when empty. *)
Definition parentsOf (meta : ModuleMeta) (targetModule : string) : option JsSet.t :=
  match JsObject.get (inputs meta) targetModule with
  | Some m => parents m
  | None => None
  end.

(** A [forEach] whose body reassigns an accumulator and may not return. *)
Fixpoint forEachM {A B : Type} (body : B -> A -> option B) (xs : list A) (acc : B)
    : option B :=
  match xs with
  | [] => Some acc
  | x :: rest =>
      match body acc x with
      | Some acc' => forEachM body rest acc'
      | None => None
      end
  end.

(** The recursion of the source is not bounded by any measure: [fuel] is the
    depth of call stack left, and [None] is its exhaustion. *)
Fixpoint getReverseDependencies (fuel : nat) (meta : ModuleMeta)
    (targetModule : string) (dependencies : list string) : option (list string) :=
  match fuel with
  | O => None
  | S fuel' =>
      match parentsOf meta targetModule with
      | Some ps =>
          forEachM
            (fun dependencies parentModule =>
               getReverseDependencies fuel' meta parentModule
                 (dependencies ++ [parentModule]))
            ps dependencies
      | None => Some dependencies
      end
  end.

(** [[strippedPath, ...getReverseDependencies(strippedPath)]]. *)
Definition resolve (fuel : nat) (meta : ModuleMeta) (strippedPath : string)
    : option (list string) :=
  match getReverseDependencies fuel meta strippedPath [] with
  | Some deps => Some (strippedPath :: deps)
  | None => None
  end.

(** ** Strings: the methods the server calls *)

(** [s.substring(1)]. *)
Definition substring1 (s : string) : string :=
  match s with
  | EmptyString => EmptyString
  | String _ rest => rest
  end.

Fixpoint drop (n : nat) (s : string) : string :=
  match n, s with
  | S n', String _ rest => drop n' rest
  | _, _ => s
  end.

(** [s.replace(pattern, '')] with a string pattern: the first occurrence
    only. *)
Fixpoint replaceWithEmpty (pattern s : string) : string :=
  if String.prefix pattern s then drop (String.length pattern) s
  else match s with
       | EmptyString => EmptyString
       | String c rest => String c (replaceWithEmpty pattern rest)
       end.

(** [s.endsWith(suffix)]. *)
Definition endsWith (s suffix : string) : bool :=
  let n := String.length s in
  let m := String.length suffix in
  Nat.leb m n && String.eqb (drop (n - m) s) suffix.

Definition string_of_nat (n : nat) : string :=
  NilZero.string_of_uint (Nat.to_uint n).

Definition hexDigit (n : nat) : ascii :=
  nth n (list_ascii_of_string "0123456789abcdef") "0"%char.

(** [JSON.stringify] of a string (QuoteJSONString). *)
Definition quoteChar (c : ascii) : string :=
  let n := nat_of_ascii c in
  if Nat.eqb n 34 then "\" +++ dquote
  else if Nat.eqb n 92 then "\\"
  else if Nat.eqb n 8 then "\b"
  else if Nat.eqb n 12 then "\f"
  else if Nat.eqb n 10 then "\n"
  else if Nat.eqb n 13 then "\r"
  else if Nat.eqb n 9 then "\t"
  else if Nat.ltb n 32 then
    "\u00" +++ String (hexDigit (n / 16)) (String (hexDigit (n mod 16)) EmptyString)
  else String c EmptyString.

Fixpoint quoteChars (s : string) : string :=
  match s with
  | EmptyString => EmptyString
  | String c rest => quoteChar c +++ quoteChars rest
  end.

Definition JSON_stringify (s : string) : string :=
  dquote +++ quoteChars s +++ dquote.

(** ** Wire messages *)

Inductive Message : Type :=
| update (body id : string)
| reload.

(** [JSON.stringify({ type: 'update', body, id })] and
    [JSON.stringify({ type: 'reload' })]: properties in creation order. *)
Definition stringifyMessage (m : Message) : string :=
  match m with
  | update body id =>
      "{" +++ JSON_stringify "type" +++ ":" +++ JSON_stringify "update"
      +++ "," +++ JSON_stringify "body" +++ ":" +++ JSON_stringify body
      +++ "," +++ JSON_stringify "id" +++ ":" +++ JSON_stringify id +++ "}"
  | reload =>
      "{" +++ JSON_stringify "type" +++ ":" +++ JSON_stringify "reload" +++ "}"
  end.

(** What a client reads first: the [type] of a serialized message. *)
Definition isUpdate (message : string) : bool :=
  String.prefix ("{" +++ JSON_stringify "type" +++ ":" +++ JSON_stringify "update" +++ ",")
    message.

Definition isReload (message : string) : bool :=
  String.eqb message (stringifyMessage reload).

(** ** The wrapper [transformCode] puts around a transformed module *)

Definition wrapModule (contextVariableName filename resultCode : string) : string :=
  nl +++
  "  var " +++ contextVariableName +++ " = window.__hot.register("
        +++ JSON_stringify filename +++ ");" +++ nl +++
  nl +++
  "  " +++ resultCode +++ nl +++
  "  " +++ nl +++
  "  " +++ contextVariableName +++ ".accept(({ body }) => {" +++ nl +++
  "    console.log('accepted!', " +++ JSON_stringify filename +++ ");" +++ nl +++
  "    console.log(body);" +++ nl +++
  "  });" +++ nl +++
  "  " +++ contextVariableName +++ ".dispose(() => {" +++ nl +++
  "    console.log('disposed!', " +++ JSON_stringify filename +++ ");" +++ nl +++
  "  });" +++ nl +++
  "  ".

Definition guardOpen : string := "try {" +++ nl +++ "    ".

Definition guardClose : string :=
  nl +++
  "  } catch(error) {" +++ nl +++
  "    alert('HMR Failed');" +++ nl +++
  "    window.location.reload();" +++ nl +++
  "  }".

(** The value of [runtimeModule ? `try { ... }` : code]. *)
Definition guarded (runtimeModule : bool) (code : string) : string :=
  if runtimeModule then guardOpen +++ code +++ guardClose else code.

(** ** Shared state and the bundler *)

(** The handle [esbuild.context] returns. *)
Inductive BuildContext : Type := esbuild_context.

Record OutputFile : Type := mkOutputFile {
  contents : list Byte.byte
}.

Record BuildResult : Type := mkBuildResult {
  metafile : ModuleMeta;
  outputFiles : list OutputFile
}.

(** One run of the bundler, seen from the plugin: it asks [onLoad] for the
    contents of a file matching [/\.ts$/] and goes on with what the plugin
    returns, until it ends with a result or fails. *)
Inductive Build : Type :=
| build_load (file : string) (next : string -> Build)
| build_end (result : BuildResult)
| build_failed (reason : string).

Record sharedStateT : Type := mkState {
  _idx : nat;
  context : option BuildContext;
  bundle : option (list Byte.byte);
  moduleMeta : option ModuleMeta;
  clients : list WebSocket
}.

(** The initial value of [sharedState]. *)
Definition sharedState : sharedStateT :=
  {| _idx := 0; context := None; bundle := None; moduleMeta := None; clients := [] |}.

Definition withIdx (st : sharedStateT) (n : nat) : sharedStateT :=
  {| _idx := n; context := context st; bundle := bundle st;
     moduleMeta := moduleMeta st; clients := clients st |}.

(** What the server does not define itself. Files do not change while one
    event or one build is handled, so each is a function. *)
Record Environment : Type := mkEnv {
  (** [path.resolve('.')] *)
  ROOT : string;
  (** [path.join] of node *)
  path_join : string -> string -> string;
  (** [fs.readFile(file)] followed by [transform] of [@swc/core] with the
      module plugin's options; [None] when either promise rejects *)
  transform : string -> string -> bool -> JsObject.t string -> option string;
  (** what the bundler does when [rebuild] is called *)
  esbuild : Build;
  (** the depth of call stack the engine grants *)
  stackDepth : nat
}.

(** ** Computations: state, effects, completion *)

Inductive Completion (A : Type) : Type :=
| normal (a : A)
| abrupt (e : Error).
Arguments normal {A} a.
Arguments abrupt {A} e.

Definition Run (A : Type) : Type :=
  sharedStateT -> Completion A * sharedStateT * list Effect.

Definition ret {A : Type} (a : A) : Run A := fun st => (normal a, st, []).

Definition throw {A : Type} (e : Error) : Run A := fun st => (abrupt e, st, []).

Definition bind {A B : Type} (m : Run A) (k : A -> Run B) : Run B :=
  fun st =>
    match m st with
    | (normal a, st1, out1) =>
        match k a st1 with
        | (c, st2, out2) => (c, st2, out1 ++ out2)
        end
    | (abrupt e, st1, out1) => (abrupt e, st1, out1)
    end.

(** [m.catch(handler)] *)
Definition catch {A : Type} (m : Run A) (handler : Error -> Run A) : Run A :=
  fun st =>
    match m st with
    | (normal a, st1, out1) => (normal a, st1, out1)
    | (abrupt e, st1, out1) =>
        match handler e st1 with
        | (c, st2, out2) => (c, st2, out1 ++ out2)
        end
    end.

Definition emit (e : Effect) : Run unit := fun st => (normal tt, st, [e]).

Definition emitAll (es : list Effect) : Run unit := fun st => (normal tt, st, es).

Definition gets {A : Type} (f : sharedStateT -> A) : Run A :=
  fun st => (normal (f st), st, []).

Definition modify (f : sharedStateT -> sharedStateT) : Run unit :=
  fun st => (normal tt, f st, []).

Notation "x <- m ;; k" := (bind m (fun x => k))
  (at level 61, m at next level, right associativity).
Notation "m ;;; k" := (bind m (fun _ => k))
  (at level 61, right associativity).

(** ** The server *)

Section Server.

Variable env : Environment.

Definition stripRoot (file : string) : string :=
  substring1 (replaceWithEmpty (ROOT env) file).

(** [`__hmr${sharedState._idx++}`]: reads the counter, then advances it. *)
Definition nextContextVariableName : Run string :=
  fun st =>
    (normal ("__hmr" +++ string_of_nat (_idx st)), withIdx st (S (_idx st)), []).

Definition transformCode (file : string) (runtimeModule : bool)
    (importPaths : JsObject.t string) : Run string :=
  let filename := stripRoot file in
  emit (swc_transform file filename runtimeModule importPaths) ;;;
  match transform env file filename runtimeModule importPaths with
  | None => throw (Rejected "transform")
  | Some resultCode =>
      contextVariableName <- nextContextVariableName ;;
      let code := wrapModule contextVariableName filename resultCode in
      ret (guarded runtimeModule code)
  end.

(** [sharedState.clients.forEach((socket) => socket.send(message))] *)
Definition sendToClients (message : string) : Run unit :=
  fun st => (normal tt, st, map (fun socket => socket_send socket message) (clients st)).

(** [sharedState.moduleMeta], dereferenced: [null] has no [inputs]. *)
Definition currentMeta : Run ModuleMeta :=
  fun st =>
    match moduleMeta st with
    | Some meta => (normal meta, st, [])
    | None =>
        (abrupt (TypeError "Cannot read properties of null (reading 'inputs')"), st, [])
    end.

(** In the warning, [path] is the imported node module, not a string. *)
Definition getModule (modulePath : string) : Run (option ModuleInfo) :=
  meta <- currentMeta ;;
  match JsObject.get (inputs meta) modulePath with
  | None =>
      emit (console_warn "unable to get meta data of [object Object]") ;;;
      ret None
  | Some currentFile => ret (Some currentFile)
  end.

(** The key [[curr.original]] of a computed property. *)
Definition originalKey (curr : ImportEntry) : string :=
  match original curr with
  | Some specifier => specifier
  | None => "undefined"
  end.

Definition importPathsOf (entries : list ImportEntry) : JsObject.t string :=
  fold_left (fun prev curr => JsObject.set prev (originalKey curr) (path curr))
    entries [].

Definition getImportPaths (modulePath : string) : Run (JsObject.t string) :=
  found <- getModule modulePath ;;
  match found with
  | Some currentFile => ret (importPathsOf (imports currentFile))
  | None => ret []
  end.

(** One link of the chain [reverseDependencies.reduce((prev, modulePath) =>
    prev.then(...), Promise.resolve())]. *)
Definition updateStep (strippedPath modulePath : string) : Run unit :=
  importPaths <- getImportPaths modulePath ;;
  code <- transformCode (path_join env (ROOT env) modulePath) true importPaths ;;
  sendToClients (stringifyMessage (update code strippedPath)).

Fixpoint updateChain (strippedPath : string) (reverseDependencies : list string)
    : Run unit :=
  match reverseDependencies with
  | [] => ret tt
  | modulePath :: rest =>
      updateStep strippedPath modulePath ;;;
      updateChain strippedPath rest
  end.

(** [build.onEnd] *)
Definition onEnd (result : BuildResult) : Run unit :=
  emit (console_log ["esbuild.onEnd"]) ;;;
  let (graph, out) := buildParents (inputs (metafile result)) in
  emitAll out ;;;
  emit (console_log_metafile {| inputs := graph |}) ;;;
  match outputFiles result with
  | [] => throw (TypeError "Cannot read properties of undefined (reading 'contents')")
  | file :: _ =>
      modify (fun st =>
        {| _idx := _idx st; context := context st;
           bundle := Some (contents file);
           moduleMeta := Some {| inputs := graph |};
           clients := clients st |})
  end.

(** The bundler at work, calling back into [build.onLoad]. *)
Fixpoint runBuild (b : Build) : Run BuildResult :=
  match b with
  | build_load file next =>
      emit (console_log ["esbuild.onLoad"; file]) ;;;
      loaded <- transformCode file false [] ;;
      runBuild (next loaded)
  | build_end result => ret result
  | build_failed reason => throw (Rejected reason)
  end.

(** [context.rebuild()]: [build.onStart], the loads, [build.onEnd]. A failed
    load fails the build, and [sharedState] keeps its graph and bundle. *)
Definition rebuild (c : BuildContext) : Run unit :=
  emit context_rebuild ;;;
  emit (console_log ["esbuild.onStart"]) ;;;
  result <- runBuild (esbuild env) ;;
  onEnd result.

(** The handler of [.catch((error) => ...)]. *)
Definition onTransformError (error : Error) : Run unit :=
  emit (console_error "[HMR] Transform error" error) ;;;
  current <- gets context ;;
  match current with
  | None => throw (TypeError "Cannot read properties of null (reading 'rebuild')")
  | Some c =>
      rebuild c ;;;
      sendToClients (stringifyMessage reload)
  end.

(** The callback given to [setupWatcher], its chain run through with no
    other callback in between. *)
Definition handler (event changedFilePath : string) : Run unit :=
  if negb (String.eqb event "change") || negb (endsWith changedFilePath ".ts")
  then ret tt
  else
    emit (console_log ["file changed: " +++ event; changedFilePath]) ;;;
    connected <- gets clients ;;
    match connected with
    | [] => ret tt
    | _ :: _ =>
        emit (console_log ["[HMR] Send update message to client"]) ;;;
        let strippedPath := stripRoot changedFilePath in
        meta <- currentMeta ;;
        match resolve (stackDepth env) meta strippedPath with
        | None => throw (RangeError "Maximum call stack size exceeded")
        | Some reverseDependencies =>
            emit (console_log ("reverse dependencies" :: reverseDependencies)) ;;;
            catch (updateChain strippedPath reverseDependencies) onTransformError
        end
    end.

(** [wss.handleUpgrade]'s callback on [/hot]. *)
Definition onConnection (client : WebSocket) : Run unit :=
  modify (fun st =>
    {| _idx := _idx st; context := context st; bundle := bundle st;
       moduleMeta := moduleMeta st; clients := clients st ++ [client] |}).

End Server.

(** * Vocabulary of the properties *)

(** ** The graph after construction *)

(** [child] is stored with [p] in its [parents]. *)
Definition hasParent (o : JsObject.t ModuleInfo) (child p : string) : Prop :=
  exists m ps, JsObject.get o child = Some m /\ parents m = Some ps /\ In p ps.

(** Some entry [importer] of [o] has an import whose [path] is [target]. *)
Definition importsOf (o : JsObject.t ModuleInfo) (importer target : string) : Prop :=
  exists m imp, In (importer, m) o /\ In imp (imports m) /\ path imp = target.

(** ** The [parents] relation *)

(** [p] is in the [parents] of [child]. *)
Definition parentEdge (meta : ModuleMeta) (child p : string) : Prop :=
  exists ps, parentsOf meta child = Some ps /\ In p ps.

(** Reachable through [parents], in zero or more steps. *)
Definition reachable (meta : ModuleMeta) : string -> string -> Prop :=
  clos_refl_trans_1n string (parentEdge meta).

(** Reachable in one or more steps. *)
Definition ancestor (meta : ModuleMeta) : string -> string -> Prop :=
  clos_trans_1n string (parentEdge meta).

(** The body of the [forEach] in [getReverseDependencies]. *)
Definition visit (meta : ModuleMeta) (fuel : nat)
    : list string -> string -> option (list string) :=
  fun dependencies parentModule =>
    getReverseDependencies fuel meta parentModule (dependencies ++ [parentModule]).

(** A height that drops along every [parents] edge. *)
Definition ranked (meta : ModuleMeta) (rank : string -> nat) : Prop :=
  forall child p, parentEdge meta child p -> rank p < rank child.

Definition rankedb (meta : ModuleMeta) (rank : string -> nat) : bool :=
  forallb
    (fun entry : string * ModuleInfo =>
       match parents (snd entry) with
       | Some ps => forallb (fun p => Nat.ltb (rank p) (rank (fst entry))) ps
       | None => true
       end)
    (inputs meta).

(** ** What the clients are sent *)

(** The messages handed to [socket.send], in order. *)
Fixpoint sends (out : list Effect) : list (WebSocket * string) :=
  match out with
  | [] => []
  | socket_send socket message :: rest => (socket, message) :: sends rest
  | _ :: rest => sends rest
  end.

Definition updates (out : list Effect) : list (WebSocket * string) :=
  filter (fun sent => isUpdate (snd sent)) (sends out).

Definition reloads (out : list Effect) : list (WebSocket * string) :=
  filter (fun sent => isReload (snd sent)) (sends out).

(** The alias map [getImportPaths] finds for a module. *)
Definition aliasesOf (meta : ModuleMeta) (modulePath : string) : JsObject.t string :=
  match JsObject.get (inputs meta) modulePath with
  | Some currentFile => importPathsOf (imports currentFile)
  | None => []
  end.

(** The file the chain transforms for a module, and the name it gets. *)
Definition sourceOf (env : Environment) (modulePath : string) : string :=
  path_join env (ROOT env) modulePath.

Definition filenameOf (env : Environment) (modulePath : string) : string :=
  stripRoot env (sourceOf env modulePath).

(** What the transformer answers for a module during a hot update. *)
Definition transformed (env : Environment) (meta : ModuleMeta) (modulePath : string)
    : option string :=
  transform env (sourceOf env modulePath) (filenameOf env modulePath) true
    (aliasesOf meta modulePath).

(** The [update] message for [modulePath] when the counter is at [idx] and
    the transformer answered [resultCode], for a change of [strippedPath]. *)
Definition updateFor (env : Environment) (strippedPath : string) (idx : nat)
    (modulePath resultCode : string) : string :=
  stringifyMessage
    (update
       (guarded true
          (wrapModule ("__hmr" +++ string_of_nat idx) (filenameOf env modulePath)
             resultCode))
       strippedPath).

(** One [update] per module, each sent to every socket before the next. *)
Fixpoint updatesFor (env : Environment) (strippedPath : string)
    (sockets : list WebSocket) (code : string -> string) (idx : nat)
    (modules : list string) : list (WebSocket * string) :=
  match modules with
  | [] => []
  | modulePath :: rest =>
      map (fun socket => (socket, updateFor env strippedPath idx modulePath (code modulePath)))
        sockets
      ++ updatesFor env strippedPath sockets code (S idx) rest
  end.

(** The diagnostic of [getModule] for a module the graph does not have. *)
Definition lookupLog (meta : ModuleMeta) (modulePath : string) : list Effect :=
  match JsObject.get (inputs meta) modulePath with
  | Some _ => []
  | None => [console_warn "unable to get meta data of [object Object]"]
  end.

(** What one link of the chain prints and asks before it sends. *)
Definition transformLog (env : Environment) (meta : ModuleMeta) (modulePath : string)
    : list Effect :=
  lookupLog meta modulePath ++
  [swc_transform (sourceOf env modulePath) (filenameOf env modulePath) true
     (aliasesOf meta modulePath)].

(** Every message of [out] is an [update] whose [id] is [strippedPath], or a
    [reload]. *)
Definition namesOnly (strippedPath : string) (out : list Effect) : Prop :=
  forall socket message,
    In (socket, message) (sends out) ->
    message = stringifyMessage reload \/
    exists body, message = stringifyMessage (update body strippedPath).

(** ** The states of the server *)

(** The states of a running server: the build at start-up, run through the
    local [context], then connections and watcher events in any order. *)
Inductive reachableState : sharedStateT -> Prop :=
| reach_start : reachableState sharedState
| reach_rebuild (env : Environment) (st : sharedStateT) :
    reachableState st ->
    reachableState (snd (fst (rebuild env esbuild_context st)))
| reach_connection (client : WebSocket) (st : sharedStateT) :
    reachableState st ->
    reachableState (snd (fst (onConnection client st)))
| reach_event (env : Environment) (event file : string) (st : sharedStateT) :
    reachableState st ->
    reachableState (snd (fst (handler env event file st))).

(** Neither a rebuild nor a [reload]. *)
Definition noRecovery (e : Effect) : Prop :=
  match e with
  | context_rebuild => False
  | socket_send _ message => isReload message = false
  | _ => True
  end.

(** A computation that leaves [sharedState.context] as it found it. *)
Definition keepsContext {A : Type} (m : Run A) : Prop :=
  forall st, context (snd (fst (m st))) = context st.

(** ** Concrete projects *)

Module Scenario.

(** [import ... from specifier], resolved to [target]. *)
Definition importing (specifier target : string) : ImportEntry :=
  {| path := target; kind := import_statement; external := None;
     original := Some specifier |}.

(** A module as the bundler reports it. *)
Definition reported (entries : list ImportEntry) : ModuleInfo :=
  {| bytes := 0; parents := None; imports := entries; format := Some esm |}.

(** [a] imports [b], [b] imports [c]. *)
Definition chainInputs (a b c : string) : JsObject.t ModuleInfo :=
  [(a, reported [importing "./b" b]);
   (b, reported [importing "./c" c]);
   (c, reported [])].

Definition chainGraph (a b c : string) : ModuleMeta :=
  {| inputs := fst (buildParents (chainInputs a b c)) |}.

(** [g] imports [p1] and [p2], which both import [x]. *)
Definition diamondInputs : JsObject.t ModuleInfo :=
  [("client/g.ts", reported [importing "./p1" "client/p1.ts";
                             importing "./p2" "client/p2.ts"]);
   ("client/p1.ts", reported [importing "./x" "client/x.ts"]);
   ("client/p2.ts", reported [importing "./x" "client/x.ts"]);
   ("client/x.ts", reported [])].

Definition diamondGraph : ModuleMeta :=
  {| inputs := fst (buildParents diamondInputs) |}.

(** [a] and [b] import each other. *)
Definition cycleInputs : JsObject.t ModuleInfo :=
  [("client/a.ts", reported [importing "./b" "client/b.ts"]);
   ("client/b.ts", reported [importing "./a" "client/a.ts"])].

Definition cycleGraph : ModuleMeta :=
  {| inputs := fst (buildParents cycleInputs) |}.

(** [a] imports [b] and a package the bundle does not contain. *)
Definition danglingInputs : JsObject.t ModuleInfo :=
  [("client/a.ts", reported [importing "left-pad" "left-pad";
                             importing "./b" "client/b.ts"]);
   ("client/b.ts", reported [])].

(** The height of a module of the chain above its last importer. *)
Definition chainRank (id : string) : nat :=
  if String.eqb id "client/c.ts" then 2
  else if String.eqb id "client/b.ts" then 1
  else 0.

(** [path.join] on a directory and a relative path with nothing to
    normalise. *)
Definition join (directory relative : string) : string :=
  directory +++ "/" +++ relative.

(** A transformer that answers a one-line body, except for the files
    [rejected] names. *)
Definition swc (rejected : string -> bool) (file filename : string)
    (runtimeModule : bool) (importPaths : JsObject.t string) : option string :=
  if rejected filename then None else Some ("/* " +++ filename +++ " */").

Definition nothing (filename : string) : bool := false.

Definition only (name filename : string) : bool := String.eqb filename name.

Definition chainResult : BuildResult :=
  {| metafile := {| inputs := chainInputs "client/a.ts" "client/b.ts" "client/c.ts" |};
     outputFiles := [{| contents := [] |}] |}.

(** The bundler loads the three files of the chain, then ends. *)
Definition chainBuild : Build :=
  build_load "/proj/client/a.ts" (fun _ =>
  build_load "/proj/client/b.ts" (fun _ =>
  build_load "/proj/client/c.ts" (fun _ =>
  build_end chainResult))).

Definition env (rejected : string -> bool) : Environment :=
  {| ROOT := "/proj"; path_join := join; transform := swc rejected;
     esbuild := chainBuild; stackDepth := 64 |}.

(** The server once its first build is over, then with sockets connected. *)
Definition started : sharedStateT :=
  snd (fst (rebuild (env nothing) esbuild_context sharedState)).

Definition serving (sockets : list WebSocket) : sharedStateT :=
  fold_left (fun st client => snd (fst (onConnection client st))) sockets started.

End Scenario.

(** ** The console lines of the construction *)

(** What the loop of [build.onEnd] prints for one import of [filename]. *)
Definition importLine (ins : JsObject.t ModuleInfo) (filename : string)
    (imp : ImportEntry) : Effect :=
  match JsObject.get ins (path imp) with
  | None => console_warn (path imp +++ " is not exist in metafile")
  | Some _ => console_log ["parent " +++ filename +++ ", child: " +++ path imp]
  end.

(** Metadata as the bundler hands it over: no module has [parents] yet. *)
Definition fresh (ins : JsObject.t ModuleInfo) : Prop :=
  forall k m, In (k, m) ins -> parents m = None.

(** More projects. *)
Module Cases.

(** [a] imports [b] twice, under two specifiers. *)
Definition doubleInputs : JsObject.t ModuleInfo :=
  [("client/a.ts", Scenario.reported [Scenario.importing "./b" "client/b.ts";
                                      Scenario.importing "./b.ts" "client/b.ts"]);
   ("client/b.ts", Scenario.reported [])].

(** The text on the wire of the [update] a client reads for a module whose
    transformed code is the comment [/* filename */], written out: the object
    with [type], [body] and [id], the line breaks and the quotes of the body
    escaped. [name] is the variable of the wrapper. *)
Definition wireText (name filename id : string) : string :=
  "{" +++ dquote +++ "type" +++ dquote +++ ":" +++ dquote +++ "update" +++ dquote
  +++ "," +++ dquote +++ "body" +++ dquote +++ ":" +++ dquote
  +++ "try {\n    \n  var " +++ name +++ " = window.__hot.register(\" +++ dquote
  +++ filename +++ "\" +++ dquote +++ ");\n\n  /* " +++ filename +++ " */\n  \n  "
  +++ name +++ ".accept(({ body }) => {\n    console.log('accepted!', \" +++ dquote
  +++ filename +++ "\" +++ dquote +++ ");\n    console.log(body);\n  });\n  "
  +++ name +++ ".dispose(() => {\n    console.log('disposed!', \" +++ dquote
  +++ filename +++ "\" +++ dquote
  +++ ");\n  });\n  \n  } catch(error) {\n    alert('HMR Failed');\n    window.location.reload();\n  }"
  +++ dquote +++ "," +++ dquote +++ "id" +++ dquote +++ ":" +++ dquote +++ id
  +++ dquote +++ "}".

End Cases.

(** ** Further vocabulary *)

(** The counter is a JavaScript number; it is exact, hence a [nat], below
    2^53. *)

(** No [parents] set of [o] lists a module twice. *)
Definition parentsDistinct (o : JsObject.t ModuleInfo) : Prop :=
  forall k m ps, JsObject.get o k = Some m -> parents m = Some ps -> NoDup ps.

(** What the construction leaves alone in an entry. *)
Definition sameModule (m m' : ModuleInfo) : Prop :=
  bytes m' = bytes m /\ imports m' = imports m /\ format m' = format m.

(** [o] has the modules of [ins], in their order, changed in [parents] at most. *)
Definition keepsModules (ins o : JsObject.t ModuleInfo) : Prop :=
  map fst o = map fst ins /\
  forall k m, JsObject.get ins k = Some m ->
    exists m', JsObject.get o k = Some m' /\ sameModule m m'.

(** [o] has an entry exactly where [ins] has one. *)
Definition sameKeys (ins o : JsObject.t ModuleInfo) : Prop :=
  forall k, JsObject.get o k = None <-> JsObject.get ins k = None.

(** [pattern] is found somewhere in [s]. *)
Fixpoint occurs (pattern s : string) : bool :=
  String.prefix pattern s ||
  match s with
  | EmptyString => false
  | String _ rest => occurs pattern rest
  end.

(** The last import written with [specifier], if any. *)
Fixpoint lastAlias (entries : list ImportEntry) (specifier : string)
    : option ImportEntry :=
  match entries with
  | [] => None
  | curr :: rest =>
      match lastAlias rest specifier with
      | Some later => Some later
      | None => if String.eqb specifier (originalKey curr) then Some curr else None
      end
  end.

(** Anything but a line of [console.log]. *)
Definition acts (e : Effect) : Prop :=
  match e with
  | console_log _ => False
  | _ => True
  end.

(** Same clients, same [context], a counter that has not gone back. *)
Definition steady (st st' : sharedStateT) : Prop :=
  clients st' = clients st /\ context st' = context st /\ _idx st <= _idx st'.

(** And the same bundle and graph. *)
Definition still (st st' : sharedStateT) : Prop :=
  steady st st' /\ bundle st' = bundle st /\ moduleMeta st' = moduleMeta st.

(** Every run of [m] takes a state to one related to it by [R]. *)
Definition respects {A : Type} (R : sharedStateT -> sharedStateT -> Prop)
    (m : Run A) : Prop :=
  forall st, R st (snd (fst (m st))).

(** The server's operations, from a state to a later one. *)
Inductive evolves : sharedStateT -> sharedStateT -> Prop :=
| evolves_here (st : sharedStateT) : evolves st st
| evolves_rebuild (env : Environment) (st st' : sharedStateT) :
    evolves st st' -> evolves st (snd (fst (rebuild env esbuild_context st')))
| evolves_connection (client : WebSocket) (st st' : sharedStateT) :
    evolves st st' -> evolves st (snd (fst (onConnection client st')))
| evolves_event (env : Environment) (event file : string) (st st' : sharedStateT) :
    evolves st st' -> evolves st (snd (fst (handler env event file st'))).

(** [message] sent to every socket, for each message in turn. *)
Definition broadcast (sockets : list WebSocket) (messages : list string)
    : list (WebSocket * string) :=
  flat_map (fun message => map (fun socket => (socket, message)) sockets) messages.

(** [app.get('/bundle.js', ...)]: the status and the body of the answer. *)
Definition bundleRoute (st : sharedStateT) : nat * list Byte.byte :=
  match bundle st with
  | Some bytes => (200, bytes)
  | None => (404, [])
  end.

(** The bundle and the graph are there together or not at all. *)
Definition paired (st : sharedStateT) : Prop :=
  bundle st = None <-> moduleMeta st = None.

(** What [out] sends is a sequence of messages, each sent to all of [sockets]. *)
Definition broadcasts (sockets : list WebSocket) (out : list Effect) : Prop :=
  exists messages, sends out = broadcast sockets messages.

(** A step from [a] to [b] that keeps bundle and graph together. *)
Definition keepsPaired (a b : sharedStateT) : Prop := paired a -> paired b.

(** From [X] on, no module has two distinct parents that lead to a common
    module, and no [parents] set lists a module twice. *)
Definition diamondFree (meta : ModuleMeta) (X : string) : Prop :=
  forall y ps,
    reachable meta X y -> parentsOf meta y = Some ps ->
    NoDup ps /\
    forall p q z, In p ps -> In q ps -> p <> q ->
                  reachable meta p z -> reachable meta q z -> False.

(** [d] put in front of a result. *)
Definition extend (d : list string) (r : option (list string)) : option (list string) :=
  match r with
  | Some ext => Some (d ++ ext)
  | None => None
  end.

(** No module has more than one parent. *)
Definition singleParentsb (meta : ModuleMeta) : bool :=
  forallb
    (fun entry : string * ModuleInfo =>
       match parents (snd entry) with
       | Some ps => Nat.leb (List.length ps) 1
       | None => true
       end)
    (inputs meta).

(** ** The chain while other callbacks run *)

(** A link of the chain awaits the file and the transformer. The event loop
    runs other callbacks in that time: connections, links of the chains of
    other events. What they do to [sharedState] is a function [during]; the
    links of one chain take theirs from a list, and a link the list has
    nothing for runs undisturbed. Between the end of a link and the start of
    the next, and between the resolution of [transformCode] and the send,
    only microtasks run. *)

Section Live.

Variable env : Environment.

(** [transformCode]: [filename] is computed at the call; the counter is read
    and advanced once the file is read and the transformer has answered. *)
Definition transformCodeAmid (during : sharedStateT -> sharedStateT) (file : string)
    (runtimeModule : bool) (importPaths : JsObject.t string) : Run string :=
  let filename := stripRoot env file in
  emit (swc_transform file filename runtimeModule importPaths) ;;;
  modify during ;;;
  match transform env file filename runtimeModule importPaths with
  | None => throw (Rejected "transform")
  | Some resultCode =>
      contextVariableName <- nextContextVariableName ;;
      let code := wrapModule contextVariableName filename resultCode in
      ret (guarded runtimeModule code)
  end.

(** One link: [getImportPaths(modulePath)] is an argument of the call, read
    from the graph before anything is awaited; [sendToClients] reads
    [sharedState.clients] when the code is there. *)
Definition updateStepAmid (during : sharedStateT -> sharedStateT)
    (strippedPath modulePath : string) : Run unit :=
  importPaths <- getImportPaths modulePath ;;
  code <- transformCodeAmid during (path_join env (ROOT env) modulePath) true
            importPaths ;;
  sendToClients (stringifyMessage (update code strippedPath)).

Fixpoint updateChainAmid (interference : list (sharedStateT -> sharedStateT))
    (strippedPath : string) (reverseDependencies : list string) : Run unit :=
  match reverseDependencies with
  | [] => ret tt
  | modulePath :: rest =>
      updateStepAmid (hd (fun st => st) interference) strippedPath modulePath ;;;
      updateChainAmid (tl interference) strippedPath rest
  end.

(** The callback given to [setupWatcher]: synchronous up to the chain. *)
Definition handlerAmid (interference : list (sharedStateT -> sharedStateT))
    (event changedFilePath : string) : Run unit :=
  if negb (String.eqb event "change") || negb (endsWith changedFilePath ".ts")
  then ret tt
  else
    emit (console_log ["file changed: " +++ event; changedFilePath]) ;;;
    connected <- gets clients ;;
    match connected with
    | [] => ret tt
    | _ :: _ =>
        emit (console_log ["[HMR] Send update message to client"]) ;;;
        let strippedPath := stripRoot env changedFilePath in
        meta <- currentMeta ;;
        match resolve (stackDepth env) meta strippedPath with
        | None => throw (RangeError "Maximum call stack size exceeded")
        | Some reverseDependencies =>
            emit (console_log ("reverse dependencies" :: reverseDependencies)) ;;;
            catch (updateChainAmid interference strippedPath reverseDependencies)
              (onTransformError env)
        end
    end.

End Live.



(** A connection accepted while a link awaits. *)
Definition accepting (client : WebSocket) (st : sharedStateT) : sharedStateT :=
  snd (fst (onConnection client st)).

(** ** The server of [server.ts] *)

(** The earlier server: one update per change, no [parents]. Its
    [sharedState.metafile] is the field [moduleMeta] here. *)
Module ServerTs.

Section Server.

Variable env : Environment.

(** [transformCode]: the same wrapper, returned as it is. *)
Definition transformCode (file : string) (runtimeModule : bool)
    (importPaths : JsObject.t string) : Run string :=
  let filename := stripRoot env file in
  emit (swc_transform file filename runtimeModule importPaths) ;;;
  match transform env file filename runtimeModule importPaths with
  | None => throw (Rejected "transform")
  | Some resultCode =>
      contextVariableName <- nextContextVariableName ;;
      ret (wrapModule contextVariableName filename resultCode)
  end.

(** [getModule]: here [path] in the warning is the changed file. *)
Definition getModule (file strippedPath : string) : Run (option ModuleInfo) :=
  meta <- currentMeta ;;
  match JsObject.get (inputs meta) strippedPath with
  | None =>
      emit (console_warn ("unable to get meta data of " +++ file)) ;;;
      ret None
  | Some currentFile => ret (Some currentFile)
  end.

Definition getImportPaths (file strippedPath : string) : Run (JsObject.t string) :=
  found <- getModule file strippedPath ;;
  match found with
  | Some currentFile => ret (importPathsOf (imports currentFile))
  | None => ret []
  end.

(** [build.onEnd]: the metafile is stored as the bundler made it. *)
Definition onEnd (result : BuildResult) : Run unit :=
  emit (console_log ["esbuild.onEnd"]) ;;;
  match outputFiles result with
  | [] => throw (TypeError "Cannot read properties of undefined (reading 'contents')")
  | file :: _ =>
      modify (fun st =>
        {| _idx := _idx st; context := context st;
           bundle := Some (contents file);
           moduleMeta := Some (metafile result);
           clients := clients st |})
  end.

Fixpoint runBuild (b : Build) : Run BuildResult :=
  match b with
  | build_load file next =>
      emit (console_log ["esbuild.onLoad"; file]) ;;;
      loaded <- transformCode file false [] ;;
      runBuild (next loaded)
  | build_end result => ret result
  | build_failed reason => throw (Rejected reason)
  end.

Definition rebuild (c : BuildContext) : Run unit :=
  emit context_rebuild ;;;
  emit (console_log ["esbuild.onStart"]) ;;;
  result <- runBuild (esbuild env) ;;
  onEnd result.

Definition onTransformError (error : Error) : Run unit :=
  emit (console_error "[HMR] Transform error" error) ;;;
  current <- gets context ;;
  match current with
  | None => throw (TypeError "Cannot read properties of null (reading 'rebuild')")
  | Some c =>
      rebuild c ;;;
      sendToClients (stringifyMessage reload)
  end.

(** The callback given to [setupWatcher]. The alias map is computed while
    the call to [transformCode] is being made, outside the promise. *)
Definition handler (event file : string) : Run unit :=
  if negb (String.eqb event "change") || negb (endsWith file ".ts")
  then ret tt
  else
    emit (console_log ["file changed: " +++ event; file]) ;;;
    connected <- gets clients ;;
    match connected with
    | [] => ret tt
    | _ :: _ =>
        emit (console_log ["[HMR] Send update message to client"]) ;;;
        let strippedPath := stripRoot env file in
        importPaths <- getImportPaths file strippedPath ;;
        catch
          (code <- transformCode file true importPaths ;;
           sendToClients (stringifyMessage (update code strippedPath)))
          onTransformError
    end.

End Server.

End ServerTs.

(** * Properties *)

(** ** Objects and sets *)

Module JsObjectFacts.

Lemma get_In {V : Type} (o : JsObject.t V) (k : string) (v : V) :
  JsObject.get o k = Some v -> In (k, v) o.
Proof.
  induction o as [|[k' v'] rest IH]; simpl; [discriminate|].
  destruct (String.eqb k k') eqn:E.
  - apply String.eqb_eq in E. intros [= ->]. left. now subst.
  - intros H. right. now apply IH.
Qed.

Lemma get_update {V : Type} (o : JsObject.t V) (k k' : string) (f : V -> V) :
  JsObject.get (JsObject.update o k f) k' =
  if String.eqb k' k then option_map f (JsObject.get o k')
  else JsObject.get o k'.
Proof.
  induction o as [|[k0 v0] rest IH]; simpl.
  - now destruct (String.eqb k' k).
  - destruct (String.eqb k k0) eqn:E0; simpl.
    + apply String.eqb_eq in E0. subst k0.
      destruct (String.eqb k' k) eqn:E; simpl; reflexivity.
    + destruct (String.eqb k' k0) eqn:E1; simpl.
      * apply String.eqb_eq in E1. subst k0.
        rewrite String.eqb_sym in E0. now rewrite E0.
      * apply IH.
Qed.

End JsObjectFacts.

Module JsSetFacts.

Lemma has_In (s : JsSet.t) (x : string) : JsSet.has s x = true <-> In x s.
Proof.
  unfold JsSet.has. rewrite existsb_exists. split.
  - intros [y [Hy E]]. apply String.eqb_eq in E. now subst.
  - intros H. exists x. split; [assumption|apply String.eqb_refl].
Qed.

Lemma In_add (s : JsSet.t) (x y : string) :
  In y (JsSet.add s x) <-> y = x \/ In y s.
Proof.
  unfold JsSet.add. destruct (JsSet.has s x) eqn:E.
  - apply has_In in E. split; [tauto|]. intros [->|H]; assumption.
  - rewrite in_app_iff. simpl. intuition.
Qed.

End JsSetFacts.

(** ** The traversal *)

Section Traversal.

Variable meta : ModuleMeta.

Lemma reachable_cases (x y : string) :
  reachable meta x y <-> y = x \/ ancestor meta x y.
Proof.
  split.
  - induction 1 as [|x p y E R IH].
    + now left.
    + right. destruct IH as [->|A].
      * now apply t1n_step.
      * now apply (t1n_trans _ _ _ p).
  - intros [->|A].
    + apply rt1n_refl.
    + induction A as [x p E|x p y E A IH].
      * apply (rt1n_trans _ _ _ p); [assumption|apply rt1n_refl].
      * now apply (rt1n_trans _ _ _ p).
Qed.

Lemma ancestor_trans (x y z : string) :
  ancestor meta x y -> ancestor meta y z -> ancestor meta x z.
Proof.
  induction 1 as [x p E|x p y E A IH]; intros B.
  - now apply (t1n_trans _ _ _ p).
  - apply (t1n_trans _ _ _ p); [assumption|now apply IH].
Qed.

Lemma ancestor_edge (x y z : string) :
  ancestor meta x y -> parentEdge meta y z -> ancestor meta x z.
Proof.
  intros A E. apply ancestor_trans with y; [assumption|now apply t1n_step].
Qed.

Lemma walk_S (fuel : nat) (t : string) (d : list string) :
  getReverseDependencies (S fuel) meta t d =
  match parentsOf meta t with
  | Some ps => forEachM (visit meta fuel) ps d
  | None => Some d
  end.
Proof. reflexivity. Qed.

(** More stack never changes a result. *)
Lemma walk_mono (n : nat) :
  forall m t d r, n <= m -> getReverseDependencies n meta t d = Some r -> getReverseDependencies m meta t d = Some r.
Proof.
  induction n as [|n IH]; intros m t d r Hle H; [discriminate|].
  destruct m as [|m]; [lia|].
  rewrite walk_S in *. destruct (parentsOf meta t) as [ps|]; [|assumption].
  revert d H. induction ps as [|p ps IHps]; intros d H; simpl in *; [assumption|].
  unfold visit at 1 in H. unfold visit at 1.
  destruct (getReverseDependencies n meta p (d ++ [p])) as [d'|] eqn:E; [|discriminate].
  rewrite (IH m p _ d' ltac:(lia) E). now apply IHps.
Qed.

(** Soundness: what the traversal appends are ancestors of its start. *)
Lemma walk_sound (n : nat) :
  forall t d r, getReverseDependencies n meta t d = Some r ->
    forall y, In y r -> In y d \/ ancestor meta t y.
Proof.
  induction n as [|n IH]; intros t d r H; [discriminate|].
  rewrite walk_S in H. destruct (parentsOf meta t) as [ps|] eqn:P.
  - assert (Hps : forall p, In p ps -> parentEdge meta t p).
    { intros p Hp. now exists ps. }
    clear P. revert d H. induction ps as [|p ps IHps]; intros d H y Hy; simpl in H.
    + injection H as <-. now left.
    + unfold visit at 1 in H.
      destruct (getReverseDependencies n meta p (d ++ [p])) as [d'|] eqn:E; [|discriminate].
      destruct (IHps (fun q Hq => Hps q (or_intror Hq)) d' H y Hy) as [Hd'|A];
        [|now right].
      destruct (IH p _ d' E y Hd') as [Hd|A].
      * apply in_app_iff in Hd. destruct Hd as [Hd|[<-|[]]]; [now left|].
        right. apply t1n_step. apply Hps. now left.
      * right. apply (t1n_trans _ _ _ p); [apply Hps; now left|assumption].
  - injection H as <-. intros y Hy. now left.
Qed.

(** Completeness: it keeps what it was given and reaches every ancestor. *)
Lemma walk_complete (n : nat) :
  forall t d r, getReverseDependencies n meta t d = Some r ->
    (forall y, In y d -> In y r) /\ (forall y, ancestor meta t y -> In y r).
Proof.
  induction n as [|n IH]; intros t d r H; [discriminate|].
  rewrite walk_S in H. destruct (parentsOf meta t) as [ps|] eqn:P.
  - assert (G : (forall y, In y d -> In y r) /\
                (forall p y, In p ps -> y = p \/ ancestor meta p y -> In y r)).
    { clear P. revert d H. induction ps as [|p ps IHps]; intros d H; simpl in H.
      - injection H as <-. split; [tauto|]. intros p y [].
      - unfold visit at 1 in H.
        destruct (getReverseDependencies n meta p (d ++ [p])) as [d'|] eqn:E; [|discriminate].
        destruct (IHps d' H) as [K1 K2]. destruct (IH p _ d' E) as [J1 J2].
        split.
        + intros y Hy. apply K1, J1, in_app_iff. now left.
        + intros q y [<-|Hq] Hy.
          * apply K1. destruct Hy as [->|A]; [|now apply J2].
            apply J1, in_app_iff. right. now left.
          * now apply K2 with q. }
    destruct G as [G1 G2]. split; [assumption|].
    intros y A. inversion A as [? E|p ? E A']; subst.
    + destruct E as [ps' [P' Hp]]. rewrite P in P'. injection P' as <-.
      apply G2 with y; [assumption|now left].
    + destruct E as [ps' [P' Hp]]. rewrite P in P'. injection P' as <-.
      apply G2 with p; [assumption|now right].
  - injection H as <-. split; [tauto|].
    intros y A. exfalso.
    inversion A as [? E|p ? E A']; subst;
      destruct E as [ps [P' _]]; rewrite P in P'; discriminate.
Qed.

End Traversal.

(** ** When the traversal returns *)

Section Termination.

Variable meta : ModuleMeta.

Lemma reachable_edge (x y z : string) :
  reachable meta x y -> parentEdge meta y z -> reachable meta x z.
Proof.
  induction 1 as [|x p y E R IH]; intros F.
  - apply (rt1n_trans _ _ _ z); [assumption|apply rt1n_refl].
  - apply (rt1n_trans _ _ _ p); [assumption|now apply IH].
Qed.

Lemma forEachM_total {A B : Type} (body : B -> A -> option B) (xs : list A) :
  (forall x, In x xs -> forall acc, exists acc', body acc x = Some acc') ->
  forall acc, exists acc', forEachM body xs acc = Some acc'.
Proof.
  induction xs as [|x xs IH]; intros H acc; simpl.
  - now exists acc.
  - destruct (H x (or_introl eq_refl) acc) as [acc1 ->].
    apply IH. intros y Hy. apply H. now right.
Qed.

Section From.

Variable X : string.

(** No cycle of [parents] edges can be reached from [X]. *)
Hypothesis acyclic : forall y, reachable meta X y -> ~ ancestor meta y y.

(** [stk] is the chain of calls below the one on [t]; none repeats, so
    the chain is no longer than the graph has modules. *)
Lemma walk_total_under (n : nat) :
  forall stk t d,
    reachable meta X t ->
    (forall s, In s stk -> ancestor meta s t) ->
    NoDup (t :: stk) ->
    incl (t :: stk) (map fst (inputs meta)) ->
    List.length (inputs meta) + 1 < n + List.length (t :: stk) ->
    exists r, getReverseDependencies n meta t d = Some r.
Proof.
  induction n as [|n IH]; intros stk t d R Hstk ND Hincl Hlen.
  - apply NoDup_incl_length in Hincl; [|assumption].
    rewrite length_map in Hincl. simpl in *. lia.
  - rewrite walk_S. destruct (parentsOf meta t) as [ps|] eqn:P;
      [|now exists d].
    apply forEachM_total. intros p Hp acc. unfold visit.
    assert (E : parentEdge meta t p) by now exists ps.
    assert (Rp : reachable meta X p) by now apply reachable_edge with t.
    assert (Hanc : forall s, In s (t :: stk) -> ancestor meta s p).
    { intros s [<-|Hs]; [now apply t1n_step|].
      apply ancestor_edge with t; [now apply Hstk|assumption]. }
    destruct (JsObject.get (inputs meta) p) as [m|] eqn:G.
    + apply IH with (stk := t :: stk); try assumption.
      * constructor; [|assumption].
        intros Hin. apply (acyclic p Rp). now apply Hanc.
      * intros q [<-|Hq]; [|now apply Hincl].
        apply JsObjectFacts.get_In in G. apply in_map_iff. now exists (p, m).
      * simpl in *. lia.
    + assert (Hn : 0 < n).
      { apply NoDup_incl_length in Hincl; [|assumption].
        rewrite length_map in Hincl. simpl in *. lia. }
      destruct n as [|n]; [lia|]. rewrite walk_S.
      unfold parentsOf. rewrite G. eauto.
Qed.

(** A stack one deeper than the number of modules is enough. *)
Lemma walk_total (fuel : nat) (d : list string) :
  List.length (inputs meta) < fuel ->
  exists r, getReverseDependencies fuel meta X d = Some r.
Proof.
  intros Hlen.
  destruct (JsObject.get (inputs meta) X) as [m|] eqn:G.
  - apply walk_total_under with (stk := []).
    + apply rt1n_refl.
    + intros s [].
    + constructor; [intros []|constructor].
    + intros q [<-|[]]. apply JsObjectFacts.get_In in G.
      apply in_map_iff. now exists (X, m).
    + simpl. lia.
  - destruct fuel as [|fuel]; [lia|]. rewrite walk_S.
    unfold parentsOf. rewrite G. eauto.
Qed.

End From.

Lemma forEachM_each {A B : Type} (body : B -> A -> option B) (xs : list A) :
  forall acc r, forEachM body xs acc = Some r ->
    forall x, In x xs -> exists acc' r', body acc' x = Some r'.
Proof.
  induction xs as [|x0 xs IH]; intros acc r H x Hx; [destruct Hx|].
  simpl in H. destruct (body acc x0) as [acc1|] eqn:E; [|discriminate].
  destruct Hx as [<-|Hx]; [eauto|now apply (IH acc1 r H)].
Qed.

(** A call that returns has returned, on less stack, from every ancestor. *)
Lemma walk_returns_on_ancestors (n : nat) :
  forall t d r, getReverseDependencies n meta t d = Some r ->
    forall z, ancestor meta t z ->
      exists n' d' r', n' < n /\ getReverseDependencies n' meta z d' = Some r'.
Proof.
  induction n as [|n IH]; intros t d r H z A; [discriminate|].
  rewrite walk_S in H.
  assert (Hp : forall p, parentEdge meta t p ->
                 exists d' r', getReverseDependencies n meta p d' = Some r').
  { intros p [ps [P Hin]]. rewrite P in H.
    destruct (forEachM_each _ _ _ _ H p Hin) as [acc' [r' Hr]].
    unfold visit in Hr. eauto. }
  inversion A as [? E|p ? E A']; subst.
  - destruct (Hp z E) as [d' [r' Hr]]. exists n, d', r'. split; [lia|assumption].
  - destruct (Hp p E) as [d' [r' Hr]].
    destruct (IH p d' r' Hr z A') as [n' [d'' [r'' [Hlt Hr']]]].
    exists n', d'', r''. split; [lia|assumption].
Qed.

(** On a module that is its own ancestor no stack is deep enough. *)
Lemma walk_on_cycle (y : string) :
  ancestor meta y y ->
  forall n d, getReverseDependencies n meta y d = None.
Proof.
  intros A n. induction n as [n IH] using lt_wf_ind. intros d.
  destruct (getReverseDependencies n meta y d) as [r|] eqn:E; [|reflexivity].
  destruct (walk_returns_on_ancestors n y d r E y A) as [n' [d' [r' [Hlt Hr]]]].
  rewrite (IH n' Hlt d') in Hr. discriminate.
Qed.

(** Nor from a module that reaches one. *)
Lemma walk_diverges (X y : string) :
  reachable meta X y -> ancestor meta y y ->
  forall fuel d, getReverseDependencies fuel meta X d = None.
Proof.
  intros R A fuel d. apply reachable_cases in R. destruct R as [->|R].
  - now apply walk_on_cycle.
  - destruct (getReverseDependencies fuel meta X d) as [r|] eqn:E; [|reflexivity].
    destruct (walk_returns_on_ancestors fuel X d r E y R) as [n' [d' [r' [_ Hr]]]].
    rewrite (walk_on_cycle y A n' d') in Hr. discriminate.
Qed.

Lemma rankedb_ranked (rank : string -> nat) :
  rankedb meta rank = true -> ranked meta rank.
Proof.
  unfold rankedb, ranked. rewrite forallb_forall.
  intros H child p [ps [P Hp]]. unfold parentsOf in P.
  destruct (JsObject.get (inputs meta) child) as [m|] eqn:G; [|discriminate].
  apply JsObjectFacts.get_In in G. specialize (H _ G). simpl in H.
  rewrite P in H. rewrite forallb_forall in H.
  now apply Nat.ltb_lt, H.
Qed.

Lemma ranked_ancestor (rank : string -> nat) :
  ranked meta rank -> forall x y, ancestor meta x y -> rank y < rank x.
Proof.
  intros H x y A. induction A as [x p E|x p y E A IH].
  - now apply H.
  - apply H in E. lia.
Qed.

Lemma ranked_acyclic (rank : string -> nat) :
  ranked meta rank -> forall y, ~ ancestor meta y y.
Proof.
  intros H y A. apply (ranked_ancestor rank H) in A. lia.
Qed.

End Termination.

(** ** Graph construction *)

Section Construction.

Lemma fold_left_invariant {A B : Type} (f : A -> B -> A) (Q : A -> Prop)
    (l : list B) :
  (forall a b, In b l -> Q a -> Q (f a b)) ->
  forall a, Q a -> Q (fold_left f l a).
Proof.
  induction l as [|b l IH]; intros H a Ha; simpl; [assumption|].
  apply IH.
  - intros a' b' Hb'. apply H. now right.
  - apply H; [now left|assumption].
Qed.

(** [P] holds until [b] is met, which establishes [Q], kept from then on. *)
Lemma fold_left_establish {A B : Type} (f : A -> B -> A) (P Q : A -> Prop)
    (l : list B) (b : B) :
  In b l ->
  (forall a b', P a -> P (f a b')) ->
  (forall a, P a -> Q (f a b)) ->
  (forall a b', Q a -> Q (f a b')) ->
  forall a, P a -> Q (fold_left f l a).
Proof.
  intros Hb HP HPQ HQ a Ha.
  apply in_split in Hb. destruct Hb as [l1 [l2 ->]].
  rewrite fold_left_app. simpl.
  apply fold_left_invariant; [intros; now apply HQ|].
  apply HPQ. apply fold_left_invariant; [intros; now apply HP|assumption].
Qed.

Lemma addParent_absent (filename : string)
    (acc : JsObject.t ModuleInfo * list Effect) (imp : ImportEntry) (k : string) :
  JsObject.get (fst (addParent filename acc imp)) k = None <->
  JsObject.get (fst acc) k = None.
Proof.
  destruct acc as [ins out]. unfold addParent.
  destruct (JsObject.get ins (path imp)) as [m0|] eqn:G; simpl; [|tauto].
  rewrite JsObjectFacts.get_update.
  destruct (String.eqb k (path imp)); [|tauto].
  destruct (JsObject.get ins k); simpl; split; intros; congruence.
Qed.

Lemma addParent_imports (filename : string)
    (acc : JsObject.t ModuleInfo * list Effect) (imp : ImportEntry)
    (k : string) (l : list ImportEntry) :
  (exists m, JsObject.get (fst acc) k = Some m /\ imports m = l) ->
  exists m, JsObject.get (fst (addParent filename acc imp)) k = Some m /\ imports m = l.
Proof.
  destruct acc as [ins out]. unfold addParent. intros [m [Hm Hl]].
  destruct (JsObject.get ins (path imp)) as [m0|] eqn:G; simpl in *; [|eauto].
  rewrite JsObjectFacts.get_update, Hm.
  destruct (String.eqb k (path imp)); simpl; eauto.
Qed.

Lemma addParent_hasParent (filename : string)
    (acc : JsObject.t ModuleInfo * list Effect) (imp : ImportEntry)
    (child p : string) :
  hasParent (fst (addParent filename acc imp)) child p <->
  hasParent (fst acc) child p \/
  (JsObject.get (fst acc) child <> None /\ p = filename /\ path imp = child).
Proof.
  destruct acc as [ins out]. unfold addParent, hasParent.
  destruct (JsObject.get ins (path imp)) as [m0|] eqn:G; simpl.
  - destruct (String.eqb child (path imp)) eqn:E.
    + apply String.eqb_eq in E. subst child. split.
      * intros [m [ps [Hm [Hps Hp]]]].
        rewrite JsObjectFacts.get_update, String.eqb_refl, G in Hm.
        simpl in Hm. injection Hm as <-. simpl in Hps. injection Hps as <-.
        apply JsSetFacts.In_add in Hp. destruct Hp as [->|Hp].
        -- right. rewrite G. repeat split. discriminate.
        -- left. exists m0. destruct (parents m0) as [s|]; [|destruct Hp].
           exists s. auto.
      * intros H. rewrite JsObjectFacts.get_update, String.eqb_refl, G. simpl.
        eexists. eexists. split; [reflexivity|]. split; [reflexivity|].
        apply JsSetFacts.In_add.
        destruct H as [[m [ps [Hm [Hps Hp]]]]|[_ [-> _]]]; [|now left].
        right. rewrite G in Hm. injection Hm as <-. now rewrite Hps.
    + split.
      * intros [m [ps [Hm H]]]. rewrite JsObjectFacts.get_update, E in Hm.
        left. eauto.
      * intros [[m [ps [Hm H]]]|[_ [_ K]]].
        -- exists m, ps. rewrite JsObjectFacts.get_update, E. auto.
        -- subst child. rewrite String.eqb_refl in E. discriminate.
  - split; [tauto|]. intros [H|[H [_ K]]]; [assumption|].
    subst child. contradiction.
Qed.

Lemma addParent_out (filename : string)
    (acc : JsObject.t ModuleInfo * list Effect) (imp : ImportEntry) (e : Effect) :
  In e (snd acc) -> In e (snd (addParent filename acc imp)).
Proof.
  destruct acc as [ins out]. unfold addParent.
  destruct (JsObject.get ins (path imp)); simpl; intros H;
    apply in_or_app; now left.
Qed.

Lemma addParent_warns (filename : string)
    (acc : JsObject.t ModuleInfo * list Effect) (imp : ImportEntry) :
  JsObject.get (fst acc) (path imp) = None ->
  In (console_warn (path imp +++ " is not exist in metafile"))
     (snd (addParent filename acc imp)).
Proof.
  destruct acc as [ins out]. unfold addParent. simpl. intros ->. simpl.
  apply in_or_app. right. now left.
Qed.

Lemma addParentsOf_absent (acc : JsObject.t ModuleInfo * list Effect)
    (entry : string * ModuleInfo) (k : string) :
  JsObject.get (fst (addParentsOf acc entry)) k = None <->
  JsObject.get (fst acc) k = None.
Proof.
  unfold addParentsOf.
  apply (fold_left_invariant (addParent (fst entry))
           (fun a => JsObject.get (fst a) k = None <-> JsObject.get (fst acc) k = None));
    [|tauto].
  intros a b _ H. now rewrite addParent_absent.
Qed.

Lemma buildParents_absent (ins : JsObject.t ModuleInfo) (k : string) :
  JsObject.get (fst (buildParents ins)) k = None <-> JsObject.get ins k = None.
Proof.
  unfold buildParents.
  apply (fold_left_invariant addParentsOf
           (fun a => JsObject.get (fst a) k = None <-> JsObject.get ins k = None));
    [|simpl; tauto].
  intros a b _ H. now rewrite addParentsOf_absent.
Qed.

Lemma buildParents_imports (ins : JsObject.t ModuleInfo) (k : string) (m : ModuleInfo) :
  JsObject.get ins k = Some m ->
  exists m', JsObject.get (fst (buildParents ins)) k = Some m' /\
             imports m' = imports m.
Proof.
  intros Hm. unfold buildParents.
  apply (fold_left_invariant addParentsOf
           (fun a => exists m', JsObject.get (fst a) k = Some m' /\
                                imports m' = imports m)); [|simpl; eauto].
  intros a b _ H. unfold addParentsOf.
  apply (fold_left_invariant (addParent (fst b))
           (fun a => exists m', JsObject.get (fst a) k = Some m' /\
                                imports m' = imports m)); [|assumption].
  intros a' i _. apply addParent_imports.
Qed.

Lemma addParentsOf_hasParent (entry : string * ModuleInfo) (child p : string) :
  forall acc,
    hasParent (fst (addParentsOf acc entry)) child p <->
    hasParent (fst acc) child p \/
    (JsObject.get (fst acc) child <> None /\ p = fst entry /\
     exists imp, In imp (imports (snd entry)) /\ path imp = child).
Proof.
  unfold addParentsOf. induction (imports (snd entry)) as [|i l IH]; intros acc; simpl.
  - split; [tauto|]. intros [H|[_ [_ [imp [[] _]]]]]. assumption.
  - rewrite IH, addParent_hasParent. split.
    + intros [[H|[H1 [H2 H3]]]|[H1 [H2 [imp [H3 H4]]]]].
      * now left.
      * right. repeat split; try assumption. exists i. auto.
      * right. repeat split; try assumption.
        -- intros K. apply H1. now apply addParent_absent.
        -- exists imp. auto.
    + intros [H|[H1 [H2 [imp [[<-|H3] H4]]]]].
      * left. now left.
      * left. right. auto.
      * right. repeat split; try assumption.
        -- intros K. apply H1. now apply addParent_absent in K.
        -- exists imp. auto.
Qed.

Lemma fold_addParentsOf_hasParent (child p : string) (es : list (string * ModuleInfo)) :
  forall acc,
    hasParent (fst (fold_left addParentsOf es acc)) child p <->
    hasParent (fst acc) child p \/
    (JsObject.get (fst acc) child <> None /\ importsOf es p child).
Proof.
  unfold importsOf. induction es as [|[f mf] es IH]; intros acc; simpl.
  - split; [tauto|]. intros [H|[_ [m [imp [[] _]]]]]. assumption.
  - rewrite IH, addParentsOf_hasParent. simpl. split.
    + intros [[H|[H1 [H2 [imp [H3 H4]]]]]|[H1 [m [imp [H2 [H3 H4]]]]]].
      * now left.
      * right. split; [assumption|]. exists mf, imp. subst p. auto.
      * right. split.
        -- intros K. apply H1. now apply addParentsOf_absent.
        -- exists m, imp. auto.
    + intros [H|[H1 [m [imp [[E|H2] [H3 H4]]]]]].
      * left. now left.
      * injection E as <- <-. left. right. repeat split; try assumption.
        exists imp. auto.
      * right. split.
        -- intros K. apply H1. now apply addParentsOf_absent in K.
        -- exists m, imp. auto.
Qed.

(** The [parents] after construction: what the metadata came with, and one
    entry for each import whose target the metadata has. *)
Lemma buildParents_hasParent (ins : JsObject.t ModuleInfo) (child p : string) :
  hasParent (fst (buildParents ins)) child p <->
  hasParent ins child p \/
  (JsObject.get ins child <> None /\ importsOf ins p child).
Proof. unfold buildParents. now rewrite fold_addParentsOf_hasParent. Qed.

Lemma buildParents_warns (ins : JsObject.t ModuleInfo) (importer : string)
    (m : ModuleInfo) (imp : ImportEntry) :
  In (importer, m) ins -> In imp (imports m) ->
  JsObject.get ins (path imp) = None ->
  In (console_warn (path imp +++ " is not exist in metafile"))
     (snd (buildParents ins)).
Proof.
  intros Hm Himp Habs. unfold buildParents.
  set (warning := console_warn (path imp +++ " is not exist in metafile")).
  apply (fold_left_establish addParentsOf
           (fun a => JsObject.get (fst a) (path imp) = None)
           (fun a => In warning (snd a)) ins (importer, m) Hm);
    [| | |assumption].
  - intros a b' H. now apply addParentsOf_absent.
  - intros a H. unfold addParentsOf. simpl.
    apply (fold_left_establish (addParent importer)
             (fun a => JsObject.get (fst a) (path imp) = None)
             (fun a => In warning (snd a)) (imports m) imp Himp);
      [| | |assumption].
    + intros a' b' H'. now apply addParent_absent.
    + intros a' H'. now apply addParent_warns.
    + intros a' b' H'. now apply addParent_out.
  - intros a b' H. unfold addParentsOf.
    apply fold_left_invariant; [|assumption].
    intros a' i _ H'. now apply addParent_out.
Qed.

End Construction.

(** ** Running the chain *)

Section Sending.

Variable env : Environment.

Lemma sends_app (a b : list Effect) : sends (a ++ b) = sends a ++ sends b.
Proof.
  induction a as [|e a IH]; simpl; [reflexivity|].
  destruct e; simpl; now rewrite ?IH.
Qed.

Lemma sends_sockets (sockets : list WebSocket) (message : string) :
  sends (map (fun socket => socket_send socket message) sockets) =
  map (fun socket => (socket, message)) sockets.
Proof. induction sockets as [|s l IH]; simpl; [reflexivity|now rewrite IH]. Qed.

Lemma isUpdate_update (body id : string) :
  isUpdate (stringifyMessage (update body id)) = true.
Proof. reflexivity. Qed.

Lemma withIdx_same (st : sharedStateT) : withIdx st (_idx st) = st.
Proof. now destruct st. Qed.

Lemma withIdx_withIdx (st : sharedStateT) (n m : nat) :
  withIdx (withIdx st n) m = withIdx st m.
Proof. reflexivity. Qed.

(** One link of the chain, once the graph is there. *)
Lemma updateStep_run (meta : ModuleMeta) (strippedPath modulePath : string)
    (st : sharedStateT) :
  moduleMeta st = Some meta ->
  updateStep env strippedPath modulePath st =
  match transformed env meta modulePath with
  | Some resultCode =>
      (normal tt, withIdx st (S (_idx st)),
       transformLog env meta modulePath ++
       map (fun socket =>
              socket_send socket
                (updateFor env strippedPath (_idx st) modulePath resultCode))
           (clients st))
  | None => (abrupt (Rejected "transform"), st, transformLog env meta modulePath)
  end.
Proof.
  intros Hmeta.
  unfold updateStep, getImportPaths, getModule, currentMeta, transformCode,
    transformed, transformLog, lookupLog, aliasesOf, updateFor, filenameOf,
    sourceOf, bind, emit, ret, throw, nextContextVariableName, sendToClients.
  rewrite Hmeta.
  destruct (JsObject.get (inputs meta) modulePath) as [m|]; simpl;
    match goal with |- context [transform ?e ?a ?b ?c ?d] =>
      destruct (transform e a b c d) end; simpl; reflexivity.
Qed.

Lemma sends_transformLog (meta : ModuleMeta) (modulePath : string) :
  sends (transformLog env meta modulePath) = [].
Proof.
  unfold transformLog, lookupLog.
  now destruct (JsObject.get (inputs meta) modulePath).
Qed.

(** As long as the transformer answers, the chain goes on: every module is
    transformed under the next counter value and sent to every socket. *)
Lemma updateChain_succeeds (meta : ModuleMeta) (strippedPath : string)
    (code : string -> string) (modules : list string) :
  forall st,
    moduleMeta st = Some meta ->
    (forall x, In x modules -> transformed env meta x = Some (code x)) ->
    exists out,
      updateChain env strippedPath modules st =
        (normal tt, withIdx st (_idx st + List.length modules), out) /\
      sends out = updatesFor env strippedPath (clients st) code (_idx st) modules.
Proof.
  induction modules as [|m modules IH]; intros st Hmeta Hcode; simpl.
  - exists []. rewrite Nat.add_0_r, withIdx_same. now split.
  - unfold bind. rewrite (updateStep_run meta _ _ _ Hmeta).
    rewrite (Hcode m (or_introl eq_refl)).
    destruct (IH (withIdx st (S (_idx st))) Hmeta
                (fun x Hx => Hcode x (or_intror Hx))) as [out [Hrun Hout]].
    rewrite Hrun. eexists. split.
    + rewrite withIdx_withIdx. simpl. now rewrite Nat.add_succ_r.
    + rewrite !sends_app, sends_transformLog, sends_sockets, Hout. reflexivity.
Qed.

(** The first module the transformer rejects ends the chain. *)
Lemma updateChain_fails (meta : ModuleMeta) (strippedPath m : string)
    (post : list string) (st : sharedStateT) :
  moduleMeta st = Some meta ->
  transformed env meta m = None ->
  updateChain env strippedPath (m :: post) st =
    (abrupt (Rejected "transform"), st, transformLog env meta m).
Proof.
  intros Hmeta Hfail. simpl. unfold bind.
  now rewrite (updateStep_run meta _ _ _ Hmeta), Hfail.
Qed.

Lemma bind_ret_l {A B : Type} (a : A) (k : A -> Run B) (st : sharedStateT) :
  bind (ret a) k st = k a st.
Proof. unfold bind, ret. now destruct (k a st) as [[c st'] out]. Qed.

Lemma bind_assoc {A B C : Type} (m : Run A) (f : A -> Run B) (g : B -> Run C)
    (st : sharedStateT) :
  bind (bind m f) g st = bind m (fun x => bind (f x) g) st.
Proof.
  unfold bind. destruct (m st) as [[[a|e] st1] out1]; [|reflexivity].
  destruct (f a st1) as [[[b|e] st2] out2]; [|reflexivity].
  destruct (g b st2) as [[c st3] out3]. now rewrite app_assoc.
Qed.

Lemma bind_ext {A B : Type} (m : Run A) (f g : A -> Run B) (st : sharedStateT) :
  (forall a st', f a st' = g a st') -> bind m f st = bind m g st.
Proof.
  intros H. unfold bind. destruct (m st) as [[[a|e] st1] out1]; [|reflexivity].
  now rewrite H.
Qed.

Lemma updateChain_app (strippedPath : string) (pre post : list string) :
  forall st,
    updateChain env strippedPath (pre ++ post) st =
    bind (updateChain env strippedPath pre)
         (fun _ => updateChain env strippedPath post) st.
Proof.
  induction pre as [|m pre IH]; intros st; simpl.
  - now rewrite bind_ret_l.
  - rewrite bind_assoc. apply bind_ext. intros _ st'. apply IH.
Qed.

Lemma sends_transformCode (file : string) (runtimeModule : bool)
    (importPaths : JsObject.t string) (st : sharedStateT) :
  sends (snd (transformCode env file runtimeModule importPaths st)) = [].
Proof.
  unfold transformCode, bind, emit, throw, ret, nextContextVariableName.
  now destruct (transform env file (stripRoot env file) runtimeModule importPaths).
Qed.

Lemma sends_runBuild (b : Build) :
  forall st, sends (snd (runBuild env b st)) = [].
Proof.
  induction b as [file next IH|result|reason]; intros st; simpl; try reflexivity.
  unfold bind at 1 2. simpl.
  pose proof (sends_transformCode file false [] st) as Ht.
  destruct (transformCode env file false [] st) as [[[loaded|e] st1] out1];
    simpl in *.
  - specialize (IH loaded st1).
    destruct (runBuild env (next loaded) st1) as [[c st2] out2]. simpl in *.
    now rewrite sends_app, Ht, IH.
  - assumption.
Qed.

Lemma sends_buildParents (ins : JsObject.t ModuleInfo) :
  sends (snd (buildParents ins)) = [].
Proof.
  unfold buildParents.
  apply (fold_left_invariant addParentsOf (fun a => sends (snd a) = []));
    [|reflexivity].
  intros a b _ Ha. unfold addParentsOf.
  apply (fold_left_invariant (addParent (fst b)) (fun a => sends (snd a) = []));
    [|assumption].
  intros [ins' out'] i _ H. unfold addParent.
  destruct (JsObject.get ins' (path i)); simpl in *;
    now rewrite sends_app, H.
Qed.

Lemma sends_onEnd (result : BuildResult) (st : sharedStateT) :
  sends (snd (onEnd result st)) = [].
Proof.
  unfold onEnd. pose proof (sends_buildParents (inputs (metafile result))) as H.
  destruct (buildParents (inputs (metafile result))) as [graph out].
  unfold bind, emit, emitAll, modify, throw. simpl in *.
  destruct (outputFiles result); simpl; rewrite sends_app, H; reflexivity.
Qed.

Lemma sends_rebuild (c : BuildContext) (st : sharedStateT) :
  sends (snd (rebuild env c st)) = [].
Proof.
  unfold rebuild, bind at 1 2 3, emit. simpl.
  pose proof (sends_runBuild (esbuild env) st) as Hb.
  destruct (runBuild env (esbuild env) st) as [[[result|e] st1] out1]; simpl in *.
  - pose proof (sends_onEnd result st1) as He.
    destruct (onEnd result st1) as [[c' st2] out2]. simpl in *.
    now rewrite sends_app, Hb, He.
  - assumption.
Qed.

(** Whatever the recovery does, it sends no [update]. *)
Lemma updates_onTransformError (error : Error) (st : sharedStateT) :
  updates (snd (onTransformError env error st)) = [].
Proof.
  unfold onTransformError, bind at 1 2, emit, gets, updates. simpl.
  destruct (context st) as [c|]; [|reflexivity].
  unfold bind. pose proof (sends_rebuild c st) as Hr.
  destruct (rebuild env c st) as [[[u|e] st1] out1]; simpl in *.
  - unfold sendToClients. rewrite sends_app, Hr, sends_sockets. simpl.
    induction (clients st1) as [|s l IH]; simpl; [reflexivity|assumption].
  - now rewrite Hr.
Qed.

(** [sharedState.context] is [null]: the recovery stops at [.rebuild]. *)
Lemma onTransformError_null (error : Error) (st : sharedStateT) :
  context st = None ->
  onTransformError env error st =
    (abrupt (TypeError "Cannot read properties of null (reading 'rebuild')"), st,
     [console_error "[HMR] Transform error" error]).
Proof.
  intros H. unfold onTransformError, bind, emit, gets, throw. simpl.
  now rewrite H.
Qed.

(** The handler on a change of a [.ts] file with a client connected. *)
Lemma handler_change (file : string) (st : sharedStateT) (meta : ModuleMeta)
    (reverseDependencies : list string) :
  endsWith file ".ts" = true ->
  clients st <> [] ->
  moduleMeta st = Some meta ->
  resolve (stackDepth env) meta (stripRoot env file) = Some reverseDependencies ->
  handler env "change" file st =
  let '(c, st', out) :=
    catch (updateChain env (stripRoot env file) reverseDependencies)
          (onTransformError env) st in
  (c, st',
   [console_log ["file changed: change"; file];
    console_log ["[HMR] Send update message to client"];
    console_log ("reverse dependencies" :: reverseDependencies)] ++ out).
Proof.
  intros Hts Hclients Hmeta Hres. unfold handler. rewrite Hts. simpl.
  unfold bind, emit, gets, currentMeta. simpl.
  destruct (clients st) as [|s l] eqn:Hc; [contradiction|].
  simpl. rewrite Hmeta, Hres. simpl.
  now destruct (catch _ _ st) as [[c st'] out].
Qed.

(** When the changed module reaches a cycle, the handler ends in the
    engine's stack overflow, before any transform. *)
Lemma handler_on_cycle (file : string) (st : sharedStateT) (meta : ModuleMeta)
    (y : string) :
  endsWith file ".ts" = true ->
  clients st <> [] ->
  moduleMeta st = Some meta ->
  reachable meta (stripRoot env file) y -> ancestor meta y y ->
  handler env "change" file st =
    (abrupt (RangeError "Maximum call stack size exceeded"), st,
     [console_log ["file changed: change"; file];
      console_log ["[HMR] Send update message to client"]]).
Proof.
  intros Hts Hclients Hmeta R A. unfold handler. rewrite Hts. simpl.
  unfold bind, emit, gets, currentMeta, throw. simpl.
  destruct (clients st) as [|s l] eqn:Hc; [contradiction|].
  simpl. rewrite Hmeta. unfold resolve.
  now rewrite (walk_diverges meta _ y R A).
Qed.

End Sending.

(** ** The invalidation list *)

Lemma resolve_run (fuel : nat) (meta : ModuleMeta) (X : string) (deps : list string) :
  getReverseDependencies fuel meta X [] = Some deps ->
  resolve fuel meta X = Some (X :: deps).
Proof. unfold resolve. now intros ->. Qed.

Lemma resolve_mono (n m : nat) (meta : ModuleMeta) (X : string) (r : list string) :
  n <= m -> resolve n meta X = Some r -> resolve m meta X = Some r.
Proof.
  unfold resolve. intros Hle.
  destruct (getReverseDependencies n meta X []) as [deps|] eqn:E; [|discriminate].
  now rewrite (walk_mono meta n m X [] deps Hle E).
Qed.

(** No stack is deep enough for two modules that import each other. *)
Lemma cycle_overflows (fuel : nat) :
  forall d,
    getReverseDependencies fuel Scenario.cycleGraph "client/a.ts" d = None /\
    getReverseDependencies fuel Scenario.cycleGraph "client/b.ts" d = None.
Proof.
  induction fuel as [|fuel IH]; intros d; [now split|].
  split.
  - change (getReverseDependencies (S fuel) Scenario.cycleGraph "client/a.ts" d)
      with (forEachM (visit Scenario.cycleGraph fuel) ["client/b.ts"] d).
    simpl. unfold visit. now rewrite (proj2 (IH _)).
  - change (getReverseDependencies (S fuel) Scenario.cycleGraph "client/b.ts" d)
      with (forEachM (visit Scenario.cycleGraph fuel) ["client/a.ts"] d).
    simpl. unfold visit. now rewrite (proj1 (IH _)).
Qed.

(** C1, as stated, fails on a diamond: [x] is imported by [p1] and [p2],
    both imported by [g]; a change of [x] lists [g] twice. *)
Lemma diamond_lists_grandparent_twice :
  resolve 4 Scenario.diamondGraph "client/x.ts" =
    Some ["client/x.ts"; "client/p1.ts"; "client/g.ts"; "client/p2.ts"; "client/g.ts"]
  /\ ~ NoDup ["client/x.ts"; "client/p1.ts"; "client/g.ts"; "client/p2.ts"; "client/g.ts"].
Proof.
  split; [reflexivity|].
  intros H. inversion H as [|? ? _ H1]; subst.
  inversion H1 as [|? ? _ H2]; subst.
  inversion H2 as [|? ? H3 _]; subst.
  apply H3. right. now left.
Qed.

(** C1, amended: when no cycle of [parents] edges can be reached from the
    changed module [X], a stack deeper than the number of modules makes the
    resolution return a list that starts with [X], holds [X] exactly once,
    and holds exactly the ids reachable from [X] through [parents] edges.
    Ids other than [X] may be listed more than once. *)
Theorem resolve_acyclic (meta : ModuleMeta) (X : string) (fuel : nat) :
  (forall y, reachable meta X y -> ~ ancestor meta y y) ->
  List.length (inputs meta) < fuel ->
  exists deps,
    resolve fuel meta X = Some (X :: deps) /\
    count_occ string_dec (X :: deps) X = 1 /\
    (forall y, In y (X :: deps) <-> reachable meta X y).
Proof.
  intros Hacyclic Hfuel.
  destruct (walk_total meta X Hacyclic fuel [] Hfuel) as [deps Hdeps].
  exists deps. split; [now apply resolve_run|].
  pose proof (walk_sound meta fuel X [] deps Hdeps) as Hsound.
  destruct (walk_complete meta fuel X [] deps Hdeps) as [_ Hcomplete].
  split.
  - simpl. destruct (string_dec X X) as [_|N]; [|contradiction].
    f_equal. apply count_occ_not_In. intros Hin.
    destruct (Hsound X Hin) as [[]|A].
    apply (Hacyclic X); [apply rt1n_refl|assumption].
  - intros y. rewrite reachable_cases. simpl. split.
    + intros [<-|Hin]; [now left|]. destruct (Hsound y Hin) as [[]|A]. now right.
    + intros [->|A]; [now left|]. right. now apply Hcomplete.
Qed.

Lemma resolve_acyclic_witness :
  (forall y, reachable (Scenario.chainGraph "client/a.ts" "client/b.ts" "client/c.ts")
               "client/c.ts" y ->
             ~ ancestor (Scenario.chainGraph "client/a.ts" "client/b.ts" "client/c.ts") y y)
  /\ exists deps,
       resolve 4 (Scenario.chainGraph "client/a.ts" "client/b.ts" "client/c.ts")
         "client/c.ts" = Some ("client/c.ts" :: deps) /\
       count_occ string_dec ("client/c.ts" :: deps) "client/c.ts" = 1 /\
       (forall y, In y ("client/c.ts" :: deps) <->
                  reachable (Scenario.chainGraph "client/a.ts" "client/b.ts" "client/c.ts")
                    "client/c.ts" y).
Proof.
  assert (H : forall y,
             reachable (Scenario.chainGraph "client/a.ts" "client/b.ts" "client/c.ts")
               "client/c.ts" y ->
             ~ ancestor (Scenario.chainGraph "client/a.ts" "client/b.ts" "client/c.ts") y y).
  { intros y _. apply ranked_acyclic with (rank := Scenario.chainRank).
    apply rankedb_ranked. vm_compute. reflexivity. }
  split; [exact H|].
  apply (resolve_acyclic _ "client/c.ts" 4 H). vm_compute. lia.
Defined.

(** C3, as stated, fails on a cycle: with [a] and [b] importing each other
    the traversal from [a] returns under no stack depth. *)
Lemma cycle_never_returns :
  ~ exists fuel deps,
      getReverseDependencies fuel Scenario.cycleGraph "client/a.ts" [] = Some deps.
Proof.
  intros [fuel [deps H]].
  rewrite (proj1 (cycle_overflows fuel [])) in H. discriminate.
Qed.

(** C3, amended: when no cycle of [parents] edges can be reached from the
    start, the traversal returns, and returns the same list, under every
    stack deeper than the number of modules of the graph. *)
Theorem traversal_terminates (meta : ModuleMeta) (X : string) :
  (forall y, reachable meta X y -> ~ ancestor meta y y) ->
  exists deps,
    forall fuel, List.length (inputs meta) < fuel ->
      getReverseDependencies fuel meta X [] = Some deps.
Proof.
  intros Hacyclic.
  destruct (walk_total meta X Hacyclic (S (List.length (inputs meta))) [])
    as [deps Hdeps]; [lia|].
  exists deps. intros fuel Hfuel.
  apply walk_mono with (S (List.length (inputs meta))); [lia|assumption].
Qed.

Lemma traversal_terminates_witness :
  (forall y, reachable (Scenario.chainGraph "client/a.ts" "client/b.ts" "client/c.ts")
               "client/c.ts" y ->
             ~ ancestor (Scenario.chainGraph "client/a.ts" "client/b.ts" "client/c.ts") y y)
  /\ exists deps,
       forall fuel,
         List.length
           (inputs (Scenario.chainGraph "client/a.ts" "client/b.ts" "client/c.ts")) < fuel ->
         getReverseDependencies fuel
           (Scenario.chainGraph "client/a.ts" "client/b.ts" "client/c.ts")
           "client/c.ts" [] = Some deps.
Proof.
  assert (H : forall y,
             reachable (Scenario.chainGraph "client/a.ts" "client/b.ts" "client/c.ts")
               "client/c.ts" y ->
             ~ ancestor (Scenario.chainGraph "client/a.ts" "client/b.ts" "client/c.ts") y y).
  { intros y _. apply ranked_acyclic with (rank := Scenario.chainRank).
    apply rankedb_ranked. vm_compute. reflexivity. }
  split; [exact H|].
  exact (traversal_terminates _ "client/c.ts" H).
Defined.

(** ** The graph [build.onEnd] stores *)

Lemma onEnd_run (result : BuildResult) (file : OutputFile) (files : list OutputFile)
    (st : sharedStateT) :
  outputFiles result = file :: files ->
  onEnd result st =
    (normal tt,
     {| _idx := _idx st; context := context st; bundle := Some (contents file);
        moduleMeta := Some {| inputs := fst (buildParents (inputs (metafile result))) |};
        clients := clients st |},
     console_log ["esbuild.onEnd"]
       :: snd (buildParents (inputs (metafile result)))
       ++ [console_log_metafile
             {| inputs := fst (buildParents (inputs (metafile result))) |}]).
Proof.
  intros Hfiles. unfold onEnd.
  destruct (buildParents (inputs (metafile result))) as [graph out].
  unfold bind, emit, emitAll, modify. rewrite Hfiles. reflexivity.
Qed.

Lemma onEnd_normal (result : BuildResult) (st st' : sharedStateT) (out : list Effect) :
  onEnd result st = (normal tt, st', out) ->
  moduleMeta st' = Some {| inputs := fst (buildParents (inputs (metafile result))) |}.
Proof.
  destruct (outputFiles result) as [|file files] eqn:Hfiles.
  - unfold onEnd. destruct (buildParents (inputs (metafile result))) as [graph o].
    unfold bind, emit, emitAll, throw. rewrite Hfiles. simpl. discriminate.
  - rewrite (onEnd_run result file files st Hfiles). now intros [= <- _].
Qed.

(** C6: once [build.onEnd] has run, every module [A] with an import that
    resolves to a module [B] of the metadata is in the [parents] of [B]. *)
Theorem onEnd_parents_contain_importers (result : BuildResult)
    (st st' : sharedStateT) (out : list Effect)
    (A : string) (mA mB : ModuleInfo) (imp : ImportEntry) :
  onEnd result st = (normal tt, st', out) ->
  JsObject.get (inputs (metafile result)) A = Some mA ->
  In imp (imports mA) ->
  JsObject.get (inputs (metafile result)) (path imp) = Some mB ->
  exists graph mB' ps,
    moduleMeta st' = Some graph /\
    JsObject.get (inputs graph) (path imp) = Some mB' /\
    parents mB' = Some ps /\
    In A ps.
Proof.
  intros Hrun HA Himp HB. apply onEnd_normal in Hrun.
  assert (H : hasParent (fst (buildParents (inputs (metafile result)))) (path imp) A).
  { apply buildParents_hasParent. right. split; [congruence|].
    exists mA, imp. split; [now apply JsObjectFacts.get_In|now split]. }
  destruct H as [mB' [ps [H1 [H2 H3]]]].
  exists {| inputs := fst (buildParents (inputs (metafile result))) |}, mB', ps.
  auto.
Qed.

Lemma onEnd_parents_contain_importers_witness :
  exists graph mB' ps,
    moduleMeta
      (snd (fst (onEnd {| metafile := {| inputs := Scenario.diamondInputs |};
                          outputFiles := [{| contents := [] |}] |} sharedState)))
      = Some graph /\
    JsObject.get (inputs graph) "client/x.ts" = Some mB' /\
    parents mB' = Some ps /\
    In "client/p2.ts" ps.
Proof.
  apply (onEnd_parents_contain_importers
           {| metafile := {| inputs := Scenario.diamondInputs |};
              outputFiles := [{| contents := [] |}] |}
           sharedState
           (snd (fst (onEnd {| metafile := {| inputs := Scenario.diamondInputs |};
                               outputFiles := [{| contents := [] |}] |} sharedState)))
           (snd (onEnd {| metafile := {| inputs := Scenario.diamondInputs |};
                          outputFiles := [{| contents := [] |}] |} sharedState))
           "client/p2.ts"
           (Scenario.reported [Scenario.importing "./x" "client/x.ts"])
           (Scenario.reported [])
           (Scenario.importing "./x" "client/x.ts")).
  - vm_compute. reflexivity.
  - reflexivity.
  - simpl. now left.
  - reflexivity.
Defined.

(** C7: an import whose target the metadata lacks does not make
    [build.onEnd] fail. The warning is printed, the importer keeps the import
    in its [imports], the target gets no entry and so no [parents], and every
    import whose target is present is recorded in that target's [parents]. *)
Theorem onEnd_tolerates_missing_target (result : BuildResult)
    (file : OutputFile) (files : list OutputFile) (st : sharedStateT)
    (A : string) (mA : ModuleInfo) (imp : ImportEntry) :
  outputFiles result = file :: files ->
  JsObject.get (inputs (metafile result)) A = Some mA ->
  In imp (imports mA) ->
  JsObject.get (inputs (metafile result)) (path imp) = None ->
  exists graph out,
    onEnd result st =
      (normal tt,
       {| _idx := _idx st; context := context st; bundle := Some (contents file);
          moduleMeta := Some graph; clients := clients st |},
       out) /\
    In (console_warn (path imp +++ " is not exist in metafile")) out /\
    (exists mA', JsObject.get (inputs graph) A = Some mA' /\
                 imports mA' = imports mA) /\
    JsObject.get (inputs graph) (path imp) = None /\
    parentsOf graph (path imp) = None /\
    (forall A' mA' imp' mB,
        JsObject.get (inputs (metafile result)) A' = Some mA' ->
        In imp' (imports mA') ->
        JsObject.get (inputs (metafile result)) (path imp') = Some mB ->
        hasParent (inputs graph) (path imp') A').
Proof.
  intros Hfiles HA Himp Habsent.
  eexists. eexists. split; [apply (onEnd_run result file files st Hfiles)|].
  assert (Hnone : JsObject.get (fst (buildParents (inputs (metafile result))))
                    (path imp) = None) by now apply buildParents_absent.
  simpl. repeat split.
  - right. apply in_or_app. left.
    apply buildParents_warns with A mA; try assumption.
    now apply JsObjectFacts.get_In.
  - now apply buildParents_imports.
  - assumption.
  - unfold parentsOf. simpl. now rewrite Hnone.
  - intros A' mA' imp' mB HA' Himp' HB.
    apply buildParents_hasParent. right. split; [congruence|].
    exists mA', imp'. split; [now apply JsObjectFacts.get_In|now split].
Qed.

Lemma onEnd_tolerates_missing_target_witness :
  exists graph out,
    onEnd {| metafile := {| inputs := Scenario.danglingInputs |};
             outputFiles := [{| contents := [] |}] |} sharedState =
      (normal tt,
       {| _idx := 0; context := None; bundle := Some [];
          moduleMeta := Some graph; clients := [] |},
       out) /\
    In (console_warn ("left-pad" +++ " is not exist in metafile")) out /\
    (exists mA', JsObject.get (inputs graph) "client/a.ts" = Some mA' /\
                 imports mA' = [Scenario.importing "left-pad" "left-pad";
                                Scenario.importing "./b" "client/b.ts"]) /\
    JsObject.get (inputs graph) "left-pad" = None /\
    parentsOf graph "left-pad" = None /\
    (forall A' mA' imp' mB,
        JsObject.get Scenario.danglingInputs A' = Some mA' ->
        In imp' (imports mA') ->
        JsObject.get Scenario.danglingInputs (path imp') = Some mB ->
        hasParent (inputs graph) (path imp') A').
Proof.
  apply (onEnd_tolerates_missing_target
           {| metafile := {| inputs := Scenario.danglingInputs |};
              outputFiles := [{| contents := [] |}] |}
           {| contents := [] |} [] sharedState
           "client/a.ts"
           (Scenario.reported [Scenario.importing "left-pad" "left-pad";
                               Scenario.importing "./b" "client/b.ts"])
           (Scenario.importing "left-pad" "left-pad")).
  - reflexivity.
  - reflexivity.
  - simpl. now left.
  - reflexivity.
Defined.

(** ** The wrapper of a hot update *)

(** C8: with [runtimeModule] true the module code [transformCode] returns is
    the wrapped module inside [try { ... } catch(error) { ... }], whose catch
    branch calls [window.location.reload()]; with [runtimeModule] false it is
    the wrapped module and nothing else. *)
Theorem transformCode_guards_runtime_module (env : Environment) (file : string)
    (importPaths : JsObject.t string) (st : sharedStateT) (hot cold : string) :
  transform env file (stripRoot env file) true importPaths = Some hot ->
  transform env file (stripRoot env file) false importPaths = Some cold ->
  fst (fst (transformCode env file true importPaths st)) =
    normal
      ("try {" +++ nl +++
       "    " +++
       wrapModule ("__hmr" +++ string_of_nat (_idx st)) (stripRoot env file) hot +++ nl +++
       "  } catch(error) {" +++ nl +++
       "    alert('HMR Failed');" +++ nl +++
       "    window.location.reload();" +++ nl +++
       "  }")
  /\ fst (fst (transformCode env file false importPaths st)) =
    normal (wrapModule ("__hmr" +++ string_of_nat (_idx st)) (stripRoot env file) cold).
Proof.
  intros Hhot Hcold.
  unfold transformCode, bind, emit, ret, nextContextVariableName.
  rewrite Hhot, Hcold. split; reflexivity.
Qed.

Lemma transformCode_guards_runtime_module_witness :
  fst (fst (transformCode (Scenario.env Scenario.nothing) "/proj/client/c.ts" true []
              Scenario.started)) =
    normal
      ("try {" +++ nl +++
       "    " +++
       wrapModule "__hmr3" "client/c.ts" "/* client/c.ts */" +++ nl +++
       "  } catch(error) {" +++ nl +++
       "    alert('HMR Failed');" +++ nl +++
       "    window.location.reload();" +++ nl +++
       "  }")
  /\ fst (fst (transformCode (Scenario.env Scenario.nothing) "/proj/client/c.ts" false []
                 Scenario.started)) =
    normal (wrapModule "__hmr3" "client/c.ts" "/* client/c.ts */").
Proof.
  apply (transformCode_guards_runtime_module (Scenario.env Scenario.nothing)
           "/proj/client/c.ts" [] Scenario.started
           "/* client/c.ts */" "/* client/c.ts */"); reflexivity.
Defined.

(** ** Change events *)

(** C10: with no client connected a change event runs no transform, sends
    nothing, starts no rebuild and leaves [sharedState] as it was; all it
    does is print to the console. *)
Theorem handler_without_clients (env : Environment) (event file : string)
    (st : sharedStateT) :
  clients st = [] ->
  exists out,
    handler env event file st = (normal tt, st, out) /\
    forall e, In e out -> exists args, e = console_log args.
Proof.
  intros Hclients. unfold handler.
  destruct (negb (String.eqb event "change") || negb (endsWith file ".ts")).
  - exists []. split; [reflexivity|]. intros e [].
  - unfold bind, emit, gets, ret. rewrite Hclients. simpl.
    eexists. split; [reflexivity|].
    intros e [<-|[]]. eauto.
Qed.

Lemma handler_without_clients_witness :
  exists out,
    handler (Scenario.env Scenario.nothing) "change" "/proj/client/c.ts"
      Scenario.started = (normal tt, Scenario.started, out) /\
    forall e, In e out -> exists args, e = console_log args.
Proof.
  apply (handler_without_clients (Scenario.env Scenario.nothing) "change"
           "/proj/client/c.ts" Scenario.started).
  reflexivity.
Defined.

(** A changed module [X] the graph has no entry for: the list is [[X]] and
    [X] is handed to the transformer with an empty alias map. When the
    transformer answers, and nothing else runs meanwhile, an [update] goes to
    every client; when it does not, the [catch] handler runs. *)
Lemma handler_unknown_module (env : Environment) (file : string)
    (st : sharedStateT) (meta : ModuleMeta) :
  endsWith file ".ts" = true ->
  clients st <> [] ->
  moduleMeta st = Some meta ->
  JsObject.get (inputs meta) (stripRoot env file) = None ->
  0 < stackDepth env ->
  resolve (stackDepth env) meta (stripRoot env file) = Some [stripRoot env file] /\
  handler env "change" file st =
    let X := stripRoot env file in
    let logs :=
      [console_log ["file changed: change"; file];
       console_log ["[HMR] Send update message to client"];
       console_log ["reverse dependencies"; X];
       console_warn "unable to get meta data of [object Object]";
       swc_transform (sourceOf env X) (filenameOf env X) true []] in
    match transform env (sourceOf env X) (filenameOf env X) true [] with
    | Some resultCode =>
        (normal tt, withIdx st (S (_idx st)),
         logs ++ map (fun socket =>
                        socket_send socket (updateFor env X (_idx st) X resultCode))
                     (clients st))
    | None =>
        let '(c, st', out) := onTransformError env (Rejected "transform") st in
        (c, st', logs ++ out)
    end.
Proof.
  intros Hts Hclients Hmeta Habsent Hstack.
  assert (Hres : resolve (stackDepth env) meta (stripRoot env file)
                 = Some [stripRoot env file]).
  { destruct (stackDepth env) as [|n]; [lia|].
    unfold resolve. simpl. unfold parentsOf. now rewrite Habsent. }
  split; [assumption|].
  rewrite (handler_change env file st meta _ Hts Hclients Hmeta Hres).
  unfold catch. simpl. unfold bind at 1.
  rewrite (updateStep_run env meta _ _ _ Hmeta).
  unfold transformed, transformLog, lookupLog, aliasesOf. rewrite Habsent.
  destruct (transform env (sourceOf env (stripRoot env file))
              (filenameOf env (stripRoot env file)) true []) as [resultCode|].
  - simpl. now rewrite app_nil_r.
  - destruct (onTransformError env (Rejected "transform") st) as [[c st'] out].
    reflexivity.
Qed.

Lemma handler_unknown_module_witness :
  resolve 64 (Scenario.chainGraph "client/a.ts" "client/b.ts" "client/c.ts")
    "client/new.ts" = Some ["client/new.ts"] /\
  handler (Scenario.env Scenario.nothing) "change" "/proj/client/new.ts"
    (Scenario.serving [1]) =
    (normal tt, withIdx (Scenario.serving [1]) 4,
     [console_log ["file changed: change"; "/proj/client/new.ts"];
      console_log ["[HMR] Send update message to client"];
      console_log ["reverse dependencies"; "client/new.ts"];
      console_warn "unable to get meta data of [object Object]";
      swc_transform "/proj/client/new.ts" "client/new.ts" true [];
      socket_send 1
        (updateFor (Scenario.env Scenario.nothing) "client/new.ts" 3
           "client/new.ts" "/* client/new.ts */")]).
Proof.
  apply (handler_unknown_module (Scenario.env Scenario.nothing)
           "/proj/client/new.ts" (Scenario.serving [1])
           (Scenario.chainGraph "client/a.ts" "client/b.ts" "client/c.ts")).
  - reflexivity.
  - discriminate.
  - reflexivity.
  - reflexivity.
  - vm_compute. lia.
Defined.

(** ** The updates of one change event *)

Lemma filter_update_sockets (sockets : list WebSocket) (message : string) :
  isUpdate message = true ->
  filter (fun sent => isUpdate (snd sent))
    (map (fun socket => (socket, message)) sockets) =
  map (fun socket => (socket, message)) sockets.
Proof.
  intros H. induction sockets as [|s l IH]; simpl; [reflexivity|].
  now rewrite H, IH.
Qed.

Lemma filter_updatesFor (env : Environment) (strippedPath : string)
    (sockets : list WebSocket) (code : string -> string) (modules : list string) :
  forall idx,
    filter (fun sent => isUpdate (snd sent))
      (updatesFor env strippedPath sockets code idx modules) =
    updatesFor env strippedPath sockets code idx modules.
Proof.
  induction modules as [|m modules IH]; intros idx; simpl; [reflexivity|].
  rewrite filter_app, IH. f_equal.
  apply filter_update_sockets, isUpdate_update.
Qed.

(** C2, as stated, fails when the module the transformer rejects is not the
    first of the list: [client/c.ts] changes, its importer [client/b.ts] is
    rejected, and both clients have already been sent the update made from
    [client/c.ts]. No [reload] follows: [sharedState.context] is [null], so
    the recovery throws before it rebuilds. *)
Lemma update_sent_before_rejection :
  let env := Scenario.env (Scenario.only "client/b.ts") in
  let st := Scenario.serving [1; 2] in
  let out := snd (handler env "change" "/proj/client/c.ts" st) in
  resolve (stackDepth env) (Scenario.chainGraph "client/a.ts" "client/b.ts" "client/c.ts")
    "client/c.ts" = Some ["client/c.ts"; "client/b.ts"; "client/a.ts"] /\
  transformed env (Scenario.chainGraph "client/a.ts" "client/b.ts" "client/c.ts")
    "client/b.ts" = None /\
  updates out =
    [(1, updateFor env "client/c.ts" 3 "client/c.ts" "/* client/c.ts */");
     (2, updateFor env "client/c.ts" 3 "client/c.ts" "/* client/c.ts */")] /\
  reloads out = [] /\
  ~ In context_rebuild out.
Proof.
  vm_compute. repeat split; try reflexivity.
  intros H. repeat (destruct H as [H|H]; [discriminate|]). exact H.
Qed.

(** C2, amended: when the transformer rejects a module of the resolved list,
    the [update] messages of that event are those of the modules listed
    before it, each sent to every client, in the order of the list (none when
    the rejected module is the changed one); no [update] is sent for the
    rejected module or for any module after it. *)
Theorem updates_stop_at_rejection (env : Environment) (file : string)
    (st : sharedStateT) (meta : ModuleMeta) (code : string -> string)
    (pre post : list string) (m : string) :
  endsWith file ".ts" = true ->
  clients st <> [] ->
  moduleMeta st = Some meta ->
  resolve (stackDepth env) meta (stripRoot env file) = Some (pre ++ m :: post) ->
  (forall x, In x pre -> transformed env meta x = Some (code x)) ->
  transformed env meta m = None ->
  updates (snd (handler env "change" file st)) =
    updatesFor env (stripRoot env file) (clients st) code (_idx st) pre.
Proof.
  intros Hts Hclients Hmeta Hres Hpre Hm.
  rewrite (handler_change env file st meta _ Hts Hclients Hmeta Hres).
  unfold catch. rewrite updateChain_app. unfold bind.
  destruct (updateChain_succeeds env meta (stripRoot env file) code pre st Hmeta Hpre)
    as [out1 [Hrun Hsent]].
  rewrite Hrun. cbv beta iota.
  rewrite (updateChain_fails env meta (stripRoot env file) m post
             (withIdx st (_idx st + List.length pre)) Hmeta Hm).
  pose proof (updates_onTransformError env (Rejected "transform")
                (withIdx st (_idx st + List.length pre))) as Hrec.
  destruct (onTransformError env (Rejected "transform")
              (withIdx st (_idx st + List.length pre))) as [[c st'] out2].
  simpl in *.
  unfold updates in *. cbn [sends].
  rewrite !sends_app, sends_transformLog, app_nil_r, filter_app, Hrec, app_nil_r, Hsent.
  apply filter_updatesFor.
Qed.

Lemma updates_stop_at_rejection_witness :
  updates (snd (handler (Scenario.env (Scenario.only "client/b.ts")) "change"
                  "/proj/client/c.ts" (Scenario.serving [1; 2]))) =
    updatesFor (Scenario.env (Scenario.only "client/b.ts")) "client/c.ts" [1; 2]
      (fun x => "/* " +++ x +++ " */") 3 ["client/c.ts"].
Proof.
  apply (updates_stop_at_rejection (Scenario.env (Scenario.only "client/b.ts"))
           "/proj/client/c.ts" (Scenario.serving [1; 2])
           (Scenario.chainGraph "client/a.ts" "client/b.ts" "client/c.ts")
           (fun x => "/* " +++ x +++ " */")
           ["client/c.ts"] ["client/a.ts"] "client/b.ts").
  - reflexivity.
  - discriminate.
  - reflexivity.
  - reflexivity.
  - intros x [<-|[]]. reflexivity.
  - reflexivity.
Defined.

(** ** The chain scenario *)

Section Chain.

Variables A B C : string.
Hypothesis AB : A <> B.
Hypothesis AC : A <> C.
Hypothesis BC : B <> C.

Lemma chain_parents :
  parentsOf (Scenario.chainGraph A B C) C = Some [B] /\
  parentsOf (Scenario.chainGraph A B C) B = Some [A] /\
  parentsOf (Scenario.chainGraph A B C) A = None.
Proof.
  assert (E1 : String.eqb A B = false) by now apply String.eqb_neq.
  assert (E2 : String.eqb B A = false) by (apply String.eqb_neq; congruence).
  assert (E3 : String.eqb A C = false) by now apply String.eqb_neq.
  assert (E4 : String.eqb C A = false) by (apply String.eqb_neq; congruence).
  assert (E5 : String.eqb B C = false) by now apply String.eqb_neq.
  assert (E6 : String.eqb C B = false) by (apply String.eqb_neq; congruence).
  unfold parentsOf, Scenario.chainGraph, Scenario.chainInputs, buildParents,
    addParentsOf, addParent.
  cbn. rewrite ?String.eqb_refl, ?E1, ?E2, ?E3, ?E4, ?E5, ?E6.
  cbn. rewrite ?String.eqb_refl, ?E1, ?E2, ?E3, ?E4, ?E5, ?E6.
  cbn. rewrite ?String.eqb_refl, ?E1, ?E2, ?E3, ?E4, ?E5, ?E6.
  cbn. auto.
Qed.

Lemma chain_resolve :
  resolve 3 (Scenario.chainGraph A B C) C = Some [C; B; A].
Proof.
  destruct chain_parents as [PC [PB PA]].
  unfold resolve. rewrite walk_S, PC. simpl. unfold visit at 1.
  rewrite walk_S, PB. simpl. unfold visit at 1.
  rewrite walk_S, PA. reflexivity.
Qed.

End Chain.

(** In the graph where [A] imports [B] and [B] imports [C], a change of [C]
    resolves to [[C; B; A]]. With nothing else running meanwhile, the sockets
    are sent the message made from [C], then the one made from [B], then the
    one made from [A]; the [id] of all three is [C]. *)
Lemma chain_change_sends_in_order (env : Environment) (A B C file : string)
    (st : sharedStateT) (code : string -> string) :
  A <> B -> A <> C -> B <> C ->
  endsWith file ".ts" = true ->
  stripRoot env file = C ->
  clients st <> [] ->
  moduleMeta st = Some (Scenario.chainGraph A B C) ->
  3 <= stackDepth env ->
  (forall x, In x [C; B; A] ->
             transformed env (Scenario.chainGraph A B C) x = Some (code x)) ->
  resolve (stackDepth env) (Scenario.chainGraph A B C) C = Some [C; B; A] /\
  sends (snd (handler env "change" file st)) =
    map (fun socket => (socket, updateFor env C (_idx st) C (code C))) (clients st) ++
    map (fun socket => (socket, updateFor env C (S (_idx st)) B (code B))) (clients st) ++
    map (fun socket => (socket, updateFor env C (S (S (_idx st))) A (code A))) (clients st).
Proof.
  intros AB AC BC Hts HC Hclients Hmeta Hstack Hcode. subst C.
  set (C := stripRoot env file) in *.
  assert (Hres : resolve (stackDepth env) (Scenario.chainGraph A B C) C
                 = Some [C; B; A]).
  { apply resolve_mono with 3; [assumption|now apply chain_resolve]. }
  split; [assumption|].
  rewrite (handler_change env file st _ _ Hts Hclients Hmeta Hres).
  unfold catch. fold C.
  destruct (updateChain_succeeds env _ C code [C; B; A] st Hmeta Hcode)
    as [out [Hrun Hsent]].
  rewrite Hrun. cbn [snd]. rewrite sends_app. cbn [sends app].
  rewrite Hsent. simpl. now rewrite app_nil_r.
Qed.

Lemma chain_change_sends_in_order_witness :
  resolve 64 (Scenario.chainGraph "client/a.ts" "client/b.ts" "client/c.ts")
    "client/c.ts" = Some ["client/c.ts"; "client/b.ts"; "client/a.ts"] /\
  sends (snd (handler (Scenario.env Scenario.nothing) "change" "/proj/client/c.ts"
                (Scenario.serving [1; 2]))) =
    map (fun socket =>
           (socket, updateFor (Scenario.env Scenario.nothing) "client/c.ts" 3
                      "client/c.ts" "/* client/c.ts */")) [1; 2] ++
    map (fun socket =>
           (socket, updateFor (Scenario.env Scenario.nothing) "client/c.ts" 4
                      "client/b.ts" "/* client/b.ts */")) [1; 2] ++
    map (fun socket =>
           (socket, updateFor (Scenario.env Scenario.nothing) "client/c.ts" 5
                      "client/a.ts" "/* client/a.ts */")) [1; 2].
Proof.
  apply (chain_change_sends_in_order (Scenario.env Scenario.nothing)
           "client/a.ts" "client/b.ts" "client/c.ts" "/proj/client/c.ts"
           (Scenario.serving [1; 2]) (fun x => "/* " +++ x +++ " */")).
  - discriminate.
  - discriminate.
  - discriminate.
  - reflexivity.
  - reflexivity.
  - discriminate.
  - reflexivity.
  - vm_compute. lia.
  - intros x [<-|[<-|[<-|[]]]]; reflexivity.
Defined.

(** C4, where the code departs from it: [client/a.ts] imports [client/b.ts],
    which imports [client/c.ts]; two clients are connected and
    [client/c.ts] changes, nothing else running meanwhile. The list is
    [client/c.ts], [client/b.ts], [client/a.ts], and each client is sent
    three messages in that order of their bodies. They are not the updates
    of the three modules: the ones whose body registers [client/b.ts] and
    [client/a.ts] say [client/c.ts] in [id], as the first one does. *)
Theorem chain_updates_all_name_changed_module :
  resolve (stackDepth (Scenario.env Scenario.nothing))
    (Scenario.chainGraph "client/a.ts" "client/b.ts" "client/c.ts") "client/c.ts"
    = Some ["client/c.ts"; "client/b.ts"; "client/a.ts"] /\
  sends (snd (handler (Scenario.env Scenario.nothing) "change" "/proj/client/c.ts"
                (Scenario.serving [1; 2]))) =
  [(1, Cases.wireText "__hmr3" "client/c.ts" "client/c.ts");
   (2, Cases.wireText "__hmr3" "client/c.ts" "client/c.ts");
   (1, Cases.wireText "__hmr4" "client/b.ts" "client/c.ts");
   (2, Cases.wireText "__hmr4" "client/b.ts" "client/c.ts");
   (1, Cases.wireText "__hmr5" "client/a.ts" "client/c.ts");
   (2, Cases.wireText "__hmr5" "client/a.ts" "client/c.ts")].
Proof. split; vm_compute; reflexivity. Qed.

(** ** The [id] of an update *)

Section UpdateIds.

Variable env : Environment.

Lemma namesOnly_app (strippedPath : string) (a b : list Effect) :
  namesOnly strippedPath a -> namesOnly strippedPath b ->
  namesOnly strippedPath (a ++ b).
Proof.
  intros Ha Hb socket message H. rewrite sends_app in H.
  apply in_app_iff in H. destruct H; [now apply Ha with socket|now apply Hb with socket].
Qed.

Lemma namesOnly_silent (strippedPath : string) (out : list Effect) :
  sends out = [] -> namesOnly strippedPath out.
Proof. intros H socket message Hin. rewrite H in Hin. destruct Hin. Qed.

Lemma namesOnly_sendToClients (strippedPath : string) (m : Message)
    (st : sharedStateT) :
  m = reload \/ (exists body, m = update body strippedPath) ->
  namesOnly strippedPath (snd (sendToClients (stringifyMessage m) st)).
Proof.
  intros Hm socket message H. unfold sendToClients in H. simpl in H.
  rewrite sends_sockets in H. apply in_map_iff in H.
  destruct H as [s [[= _ <-] _]].
  destruct Hm as [->|[body ->]]; [now left|right; now exists body].
Qed.

Lemma namesOnly_updateStep (strippedPath modulePath : string) (st : sharedStateT) :
  namesOnly strippedPath (snd (updateStep env strippedPath modulePath st)).
Proof.
  unfold updateStep, bind at 1.
  destruct (getImportPaths modulePath st) as [[[importPaths|e] st1] out1] eqn:E1.
  - assert (H1 : sends out1 = []).
    { revert E1. unfold getImportPaths, getModule, currentMeta, bind, emit, ret.
      destruct (moduleMeta st) as [meta|]; simpl; [|now intros [= <- <-]].
      destruct (JsObject.get (inputs meta) modulePath); simpl;
        now intros [= <- <- <-]. }
    unfold bind.
    pose proof (sends_transformCode env
                  (path_join env (ROOT env) modulePath) true importPaths st1) as H2.
    destruct (transformCode env (path_join env (ROOT env) modulePath) true
                importPaths st1) as [[[code|e] st2] out2]; simpl in *.
    + apply namesOnly_app; [now apply namesOnly_silent|].
      apply namesOnly_app; [now apply namesOnly_silent|].
      apply (namesOnly_sendToClients strippedPath (update code strippedPath) st2).
      right. now exists code.
    + apply namesOnly_app; now apply namesOnly_silent.
  - simpl. apply namesOnly_silent.
    revert E1. unfold getImportPaths, getModule, currentMeta, bind, emit, ret.
    destruct (moduleMeta st) as [meta|]; simpl; [|now intros [= _ _ <-]].
    destruct (JsObject.get (inputs meta) modulePath); simpl; discriminate.
Qed.

Lemma namesOnly_updateChain (strippedPath : string) (modules : list string) :
  forall st, namesOnly strippedPath (snd (updateChain env strippedPath modules st)).
Proof.
  induction modules as [|m modules IH]; intros st; simpl.
  - now apply namesOnly_silent.
  - unfold bind. pose proof (namesOnly_updateStep strippedPath m st) as H1.
    destruct (updateStep env strippedPath m st) as [[[u|e] st1] out1];
      simpl in *; [|assumption].
    specialize (IH st1).
    destruct (updateChain env strippedPath modules st1) as [[c st2] out2].
    now apply namesOnly_app.
Qed.

Lemma namesOnly_onTransformError (strippedPath : string) (error : Error)
    (st : sharedStateT) :
  namesOnly strippedPath (snd (onTransformError env error st)).
Proof.
  unfold onTransformError, bind at 1 2, emit, gets. simpl.
  destruct (context st) as [c|]; [|now apply namesOnly_silent].
  unfold bind. pose proof (sends_rebuild env c st) as Hr.
  destruct (rebuild env c st) as [[[u|e] st1] out1]; simpl in *.
  - apply (namesOnly_app strippedPath [_]); [now apply namesOnly_silent|].
    apply namesOnly_app; [now apply namesOnly_silent|].
    apply (namesOnly_sendToClients strippedPath reload st1). now left.
  - apply (namesOnly_app strippedPath [_]); now apply namesOnly_silent.
Qed.

(** Whatever module an update was made from, its [id] is the changed file. *)
Lemma handler_names_changed_file (event file : string) (st : sharedStateT) :
  namesOnly (stripRoot env file) (snd (handler env event file st)).
Proof.
  unfold handler.
  destruct (negb (String.eqb event "change") || negb (endsWith file ".ts"));
    [now apply namesOnly_silent|].
  unfold bind at 1 2, emit, gets. simpl.
  destruct (clients st) as [|s l] eqn:Hc; [now apply namesOnly_silent|].
  unfold bind at 1 2, emit, currentMeta. simpl.
  destruct (moduleMeta st) as [meta|]; [|now apply namesOnly_silent].
  simpl.
  destruct (resolve (stackDepth env) meta (stripRoot env file)) as [rd|];
    [|now apply namesOnly_silent].
  unfold bind, emit, catch. simpl.
  pose proof (namesOnly_updateChain (stripRoot env file) rd st) as H1.
  destruct (updateChain env (stripRoot env file) rd st) as [[[u|e] st1] out1];
    simpl in *.
  - intros socket message H. now apply H1 with socket.
  - pose proof (namesOnly_onTransformError (stripRoot env file) e st1) as H2.
    destruct (onTransformError env e st1) as [[c st2] out2]. simpl in *.
    intros socket message H. revert socket message H.
    now apply namesOnly_app.
Qed.

End UpdateIds.

(** C5, where the code departs from it: [client/c.ts] changes while
    [client/b.ts] and [client/a.ts] import it, directly and through
    [client/b.ts]. The second and third messages carry the code that
    registers [client/b.ts] and [client/a.ts] in [body], and name
    [client/c.ts] in [id]. *)
Theorem importer_update_names_changed_module :
  sends (snd (handler (Scenario.env Scenario.nothing) "change" "/proj/client/c.ts"
                (Scenario.serving [1]))) =
  [(1, stringifyMessage
         (update (guarded true (wrapModule "__hmr3" "client/c.ts" "/* client/c.ts */"))
                 "client/c.ts"));
   (1, stringifyMessage
         (update (guarded true (wrapModule "__hmr4" "client/b.ts" "/* client/b.ts */"))
                 "client/c.ts"));
   (1, stringifyMessage
         (update (guarded true (wrapModule "__hmr5" "client/a.ts" "/* client/a.ts */"))
                 "client/c.ts"))].
Proof. vm_compute. reflexivity. Qed.

(** ** [sharedState.context] is never assigned *)

Section Context.

Variable env : Environment.

Lemma keepsContext_bind {A B : Type} (m : Run A) (k : A -> Run B) :
  keepsContext m -> (forall a, keepsContext (k a)) -> keepsContext (bind m k).
Proof.
  intros Hm Hk st. unfold bind. specialize (Hm st).
  destruct (m st) as [[[a|e] st1] out1]; simpl in *; [|assumption].
  specialize (Hk a st1). destruct (k a st1) as [[c st2] out2]. simpl in *.
  congruence.
Qed.

Lemma keepsContext_transformCode (file : string) (runtimeModule : bool)
    (importPaths : JsObject.t string) :
  keepsContext (transformCode env file runtimeModule importPaths).
Proof.
  intros st. unfold transformCode, bind, emit, throw, ret, nextContextVariableName.
  now destruct (transform env file (stripRoot env file) runtimeModule importPaths).
Qed.

Lemma keepsContext_onEnd (result : BuildResult) : keepsContext (onEnd result).
Proof.
  intros st. unfold onEnd.
  destruct (buildParents (inputs (metafile result))) as [graph out].
  unfold bind, emit, emitAll, modify, throw.
  now destruct (outputFiles result).
Qed.

Lemma keepsContext_runBuild (b : Build) : keepsContext (runBuild env b).
Proof.
  induction b as [file next IH|result|reason]; simpl; try (intros st; reflexivity).
  apply keepsContext_bind; [intros st; reflexivity|]. intros _.
  apply keepsContext_bind; [apply keepsContext_transformCode|assumption].
Qed.

Lemma keepsContext_rebuild (c : BuildContext) : keepsContext (rebuild env c).
Proof.
  unfold rebuild.
  apply keepsContext_bind; [intros st; reflexivity|]. intros _.
  apply keepsContext_bind; [intros st; reflexivity|]. intros _.
  apply keepsContext_bind; [apply keepsContext_runBuild|].
  apply keepsContext_onEnd.
Qed.

Lemma keepsContext_getImportPaths (modulePath : string) :
  keepsContext (getImportPaths modulePath).
Proof.
  intros st. unfold getImportPaths, getModule, currentMeta, bind, emit, ret.
  destruct (moduleMeta st) as [meta|]; simpl; [|reflexivity].
  now destruct (JsObject.get (inputs meta) modulePath).
Qed.

Lemma keepsContext_updateChain (strippedPath : string) (modules : list string) :
  keepsContext (updateChain env strippedPath modules).
Proof.
  induction modules as [|m modules IH]; simpl; [intros st; reflexivity|].
  apply keepsContext_bind; [|intros _; assumption].
  unfold updateStep.
  apply keepsContext_bind; [apply keepsContext_getImportPaths|]. intros importPaths.
  apply keepsContext_bind; [apply keepsContext_transformCode|].
  intros code st. reflexivity.
Qed.

Lemma keepsContext_onTransformError (error : Error) :
  keepsContext (onTransformError env error).
Proof.
  unfold onTransformError.
  apply keepsContext_bind; [intros st; reflexivity|]. intros _ st.
  unfold bind at 1, gets. simpl.
  destruct (context st) as [c|] eqn:Hc; [|simpl; now rewrite Hc].
  pose proof (keepsContext_bind (rebuild env c)
                (fun _ => sendToClients (stringifyMessage reload))
                (keepsContext_rebuild c) (fun _ st' => eq_refl) st) as H.
  destruct (bind (rebuild env c) _ st) as [[c' st'] out']. simpl in *. congruence.
Qed.

Lemma keepsContext_handler (event file : string) :
  keepsContext (handler env event file).
Proof.
  unfold handler.
  destruct (negb (String.eqb event "change") || negb (endsWith file ".ts"));
    [intros st; reflexivity|].
  apply keepsContext_bind; [intros st; reflexivity|]. intros _.
  intros st. unfold bind at 1, gets. simpl.
  destruct (clients st) as [|s l]; [reflexivity|].
  unfold bind at 1 2, emit, currentMeta. simpl.
  destruct (moduleMeta st) as [meta|]; [|reflexivity]. simpl.
  destruct (resolve (stackDepth env) meta (stripRoot env file)) as [rd|];
    [|reflexivity].
  unfold bind, emit, catch. simpl.
  pose proof (keepsContext_updateChain (stripRoot env file) rd st) as H1.
  destruct (updateChain env (stripRoot env file) rd st) as [[[u|e] st1] out1];
    simpl in *; [assumption|].
  pose proof (keepsContext_onTransformError e st1) as H2.
  destruct (onTransformError env e st1) as [[c st2] out2]. simpl in *. congruence.
Qed.

Lemma noRecovery_updateChain (strippedPath : string) (modules : list string) :
  forall st, Forall noRecovery (snd (updateChain env strippedPath modules st)).
Proof.
  induction modules as [|m modules IH]; intros st; simpl; [constructor|].
  unfold bind at 1.
  assert (H1 : Forall noRecovery (snd (updateStep env strippedPath m st))).
  { unfold updateStep, getImportPaths, getModule, currentMeta, transformCode,
      bind, emit, ret, throw, nextContextVariableName, sendToClients.
    destruct (moduleMeta st) as [meta|]; simpl; [|constructor].
    destruct (JsObject.get (inputs meta) m) as [info|]; simpl;
      match goal with |- context [transform ?e ?a ?b ?c ?d] =>
        destruct (transform e a b c d) end; simpl;
      repeat (constructor; [exact I|]); try constructor;
      apply Forall_forall; intros e He; apply in_map_iff in He;
      destruct He as [socket [<- _]]; reflexivity. }
  destruct (updateStep env strippedPath m st) as [[[u|e] st1] out1];
    simpl in *; [|assumption].
  specialize (IH st1).
  destruct (updateChain env strippedPath modules st1) as [[c st2] out2].
  simpl in *. apply Forall_app. now split.
Qed.

(** With [context] at [null], an event ends in neither rebuild nor reload. *)
Lemma handler_null_context (event file : string) (st : sharedStateT) :
  context st = None ->
  Forall noRecovery (snd (handler env event file st)).
Proof.
  intros Hnull. unfold handler.
  destruct (negb (String.eqb event "change") || negb (endsWith file ".ts"));
    [constructor|].
  unfold bind at 1 2, emit, gets. simpl.
  destruct (clients st) as [|s l]; [repeat constructor|].
  unfold bind at 1 2, emit, currentMeta. simpl.
  destruct (moduleMeta st) as [meta|]; [|repeat constructor]. simpl.
  destruct (resolve (stackDepth env) meta (stripRoot env file)) as [rd|];
    [|repeat constructor].
  unfold bind, emit, catch. simpl.
  pose proof (noRecovery_updateChain (stripRoot env file) rd st) as H1.
  pose proof (keepsContext_updateChain (stripRoot env file) rd st) as H2.
  destruct (updateChain env (stripRoot env file) rd st) as [[[u|e] st1] out1];
    simpl in *.
  - repeat (constructor; [exact I|]). assumption.
  - rewrite onTransformError_null by congruence. simpl.
    repeat (constructor; [exact I|]). apply Forall_app. split; [assumption|].
    repeat constructor.
Qed.

End Context.

Lemma reachableState_context (st : sharedStateT) :
  reachableState st -> context st = None.
Proof.
  induction 1 as [|env st R IH|client st R IH|env event file st R IH].
  - reflexivity.
  - now rewrite keepsContext_rebuild.
  - assumption.
  - now rewrite keepsContext_handler.
Qed.

Lemma serving_reachable (sockets : list WebSocket) :
  reachableState (Scenario.serving sockets).
Proof.
  unfold Scenario.serving.
  assert (H : reachableState Scenario.started).
  { apply (reach_rebuild (Scenario.env Scenario.nothing)), reach_start. }
  revert H. generalize Scenario.started.
  induction sockets as [|client sockets IH]; intros st H; simpl; [assumption|].
  apply IH. now apply reach_connection.
Qed.

(** In no state the server can be in does a change event lead to a rebuild
    or to a [reload] message. *)
Lemma reachableState_no_recovery (env : Environment) (event file : string)
    (st : sharedStateT) :
  reachableState st ->
  Forall noRecovery (snd (handler env event file st)).
Proof. intros R. now apply handler_null_context, reachableState_context. Qed.

(** C9, where the code departs from it: the graph has no entry for the
    changed module [X]. The list is [[X]], and [X] is handed to the
    transformer with an empty alias map. When the transformer rejects it,
    the [catch] handler reports the error and ends in a [TypeError] at
    [sharedState.context.rebuild()], [context] being [null] in every state
    the server reaches: no rebuild starts, no socket is sent anything, no
    [reload] either, and [sharedState] stays as it was. *)
Theorem unknown_module_rejection_not_escalated (env : Environment) (file : string)
    (st : sharedStateT) (meta : ModuleMeta) :
  reachableState st ->
  endsWith file ".ts" = true ->
  clients st <> [] ->
  moduleMeta st = Some meta ->
  JsObject.get (inputs meta) (stripRoot env file) = None ->
  0 < stackDepth env ->
  transform env (sourceOf env (stripRoot env file))
    (filenameOf env (stripRoot env file)) true [] = None ->
  resolve (stackDepth env) meta (stripRoot env file) = Some [stripRoot env file] /\
  handler env "change" file st =
    (abrupt (TypeError "Cannot read properties of null (reading 'rebuild')"), st,
     [console_log ["file changed: change"; file];
      console_log ["[HMR] Send update message to client"];
      console_log ["reverse dependencies"; stripRoot env file];
      console_warn "unable to get meta data of [object Object]";
      swc_transform (sourceOf env (stripRoot env file))
        (filenameOf env (stripRoot env file)) true [];
      console_error "[HMR] Transform error" (Rejected "transform")]) /\
  sends (snd (handler env "change" file st)) = [].
Proof.
  intros R Hts Hclients Hmeta Habsent Hstack Hrejected.
  assert (Hres : resolve (stackDepth env) meta (stripRoot env file)
                 = Some [stripRoot env file]).
  { destruct (stackDepth env) as [|n]; [lia|].
    unfold resolve. simpl. unfold parentsOf. now rewrite Habsent. }
  assert (Hrun : updateChain env (stripRoot env file) [stripRoot env file] st =
                 (abrupt (Rejected "transform"), st,
                  transformLog env meta (stripRoot env file))).
  { apply updateChain_fails; [assumption|].
    unfold transformed, aliasesOf. now rewrite Habsent. }
  split; [assumption|].
  rewrite (handler_change env file st meta _ Hts Hclients Hmeta Hres).
  unfold catch. rewrite Hrun.
  rewrite (onTransformError_null env _ st (reachableState_context st R)).
  unfold transformLog, lookupLog, aliasesOf. rewrite Habsent.
  split; reflexivity.
Qed.

Lemma unknown_module_rejection_not_escalated_witness :
  resolve 64 (Scenario.chainGraph "client/a.ts" "client/b.ts" "client/c.ts")
    "client/new.ts" = Some ["client/new.ts"] /\
  handler (Scenario.env (Scenario.only "client/new.ts")) "change"
    "/proj/client/new.ts" (Scenario.serving [1; 2]) =
    (abrupt (TypeError "Cannot read properties of null (reading 'rebuild')"),
     Scenario.serving [1; 2],
     [console_log ["file changed: change"; "/proj/client/new.ts"];
      console_log ["[HMR] Send update message to client"];
      console_log ["reverse dependencies"; "client/new.ts"];
      console_warn "unable to get meta data of [object Object]";
      swc_transform "/proj/client/new.ts" "client/new.ts" true [];
      console_error "[HMR] Transform error" (Rejected "transform")]) /\
  sends (snd (handler (Scenario.env (Scenario.only "client/new.ts")) "change"
                "/proj/client/new.ts" (Scenario.serving [1; 2]))) = [].
Proof.
  apply (unknown_module_rejection_not_escalated
           (Scenario.env (Scenario.only "client/new.ts")) "/proj/client/new.ts"
           (Scenario.serving [1; 2])
           (Scenario.chainGraph "client/a.ts" "client/b.ts" "client/c.ts")).
  - apply serving_reachable.
  - reflexivity.
  - discriminate.
  - reflexivity.
  - reflexivity.
  - vm_compute. lia.
  - reflexivity.
Defined.

(** * Further properties of the code *)

(** ** The graph of [build.onEnd], exactly *)

Lemma fresh_no_parent (ins : JsObject.t ModuleInfo) (child p : string) :
  fresh ins -> ~ hasParent ins child p.
Proof.
  intros Hfresh [m [ps [Hm [Hps _]]]].
  apply JsObjectFacts.get_In in Hm. rewrite (Hfresh _ _ Hm) in Hps. discriminate.
Qed.

(** On metadata that comes without [parents], the construction puts [p] in
    the [parents] of [child] exactly when [child] is a module of the metadata
    and [p] has an import that resolves to it: no importer is missed, and
    nothing else is ever made a parent. *)
Theorem buildParents_exact (ins : JsObject.t ModuleInfo) (child p : string) :
  fresh ins ->
  (hasParent (fst (buildParents ins)) child p <->
   JsObject.get ins child <> None /\ importsOf ins p child).
Proof.
  intros Hfresh. rewrite buildParents_hasParent. split.
  - intros [H|H]; [|assumption]. now apply fresh_no_parent in H.
  - intros H. now right.
Qed.

Lemma buildParents_exact_witness :
  fresh Scenario.diamondInputs /\
  (hasParent (fst (buildParents Scenario.diamondInputs)) "client/x.ts" "client/p1.ts" <->
   JsObject.get Scenario.diamondInputs "client/x.ts" <> None /\
   importsOf Scenario.diamondInputs "client/p1.ts" "client/x.ts").
Proof.
  assert (H : fresh Scenario.diamondInputs).
  { intros k m Hin. simpl in Hin.
    repeat (destruct Hin as [[= <- <-]|Hin]; [reflexivity|]). destruct Hin. }
  split; [exact H|].
  exact (buildParents_exact Scenario.diamondInputs "client/x.ts" "client/p1.ts" H).
Defined.

Lemma NoDup_add (s : JsSet.t) (x : string) : NoDup s -> NoDup (JsSet.add s x).
Proof.
  intros H. unfold JsSet.add. destruct (JsSet.has s x) eqn:E; [assumption|].
  apply NoDup_app; [assumption|repeat constructor; intros []|].
  intros y Hy [<-|[]]. apply JsSetFacts.has_In in Hy. congruence.
Qed.

Lemma addParent_distinct (filename : string)
    (acc : JsObject.t ModuleInfo * list Effect) (imp : ImportEntry) :
  parentsDistinct (fst acc) -> parentsDistinct (fst (addParent filename acc imp)).
Proof.
  destruct acc as [ins out]. unfold addParent, parentsDistinct. simpl.
  intros H. destruct (JsObject.get ins (path imp)) as [m0|] eqn:G; simpl;
    [|assumption].
  intros k m ps Hm Hps. rewrite JsObjectFacts.get_update in Hm.
  destruct (String.eqb k (path imp)) eqn:E; [|now apply H with k m].
  apply String.eqb_eq in E. subst k. rewrite G in Hm. simpl in Hm.
  injection Hm as <-. simpl in Hps. injection Hps as <-.
  apply NoDup_add. destruct (parents m0) as [s|] eqn:P; [|constructor].
  now apply H with (path imp) m0.
Qed.

(** A [parents] set never lists a module twice, however many of its imports
    resolve to the same target. *)
Theorem buildParents_parents_distinct (ins : JsObject.t ModuleInfo)
    (k : string) (m : ModuleInfo) (ps : JsSet.t) :
  parentsDistinct ins ->
  JsObject.get (fst (buildParents ins)) k = Some m ->
  parents m = Some ps ->
  NoDup ps.
Proof.
  intros H0. revert k m ps. fold (parentsDistinct (fst (buildParents ins))).
  unfold buildParents.
  apply (fold_left_invariant addParentsOf (fun a => parentsDistinct (fst a)));
    [|assumption].
  intros a b _ Ha. unfold addParentsOf.
  apply (fold_left_invariant (addParent (fst b)) (fun a => parentsDistinct (fst a)));
    [|assumption].
  intros a' i _. apply addParent_distinct.
Qed.

Lemma buildParents_parents_distinct_witness :
  parentsDistinct Cases.doubleInputs /\
  JsObject.get (fst (buildParents Cases.doubleInputs)) "client/b.ts" =
    Some (with_parents (Scenario.reported []) ["client/a.ts"]) /\
  NoDup ["client/a.ts"].
Proof.
  assert (H : parentsDistinct Cases.doubleInputs).
  { intros k m ps Hm Hps. apply JsObjectFacts.get_In in Hm. simpl in Hm.
    repeat (destruct Hm as [[= <- <-]|Hm]; [discriminate|]). destruct Hm. }
  split; [exact H|]. split; [reflexivity|].
  apply (buildParents_parents_distinct Cases.doubleInputs "client/b.ts"
           (with_parents (Scenario.reported []) ["client/a.ts"]) ["client/a.ts"] H);
    reflexivity.
Defined.

Lemma keys_update {V : Type} (o : JsObject.t V) (k : string) (f : V -> V) :
  map fst (JsObject.update o k f) = map fst o.
Proof.
  induction o as [|[k0 v0] rest IH]; simpl; [reflexivity|].
  destruct (String.eqb k k0); simpl; [reflexivity|]. now rewrite IH.
Qed.

Lemma addParent_keepsModules (ins : JsObject.t ModuleInfo) (filename : string)
    (acc : JsObject.t ModuleInfo * list Effect) (imp : ImportEntry) :
  keepsModules ins (fst acc) -> keepsModules ins (fst (addParent filename acc imp)).
Proof.
  destruct acc as [o out]. unfold addParent, keepsModules. simpl.
  intros [Hkeys Hmods].
  destruct (JsObject.get o (path imp)) as [m0|] eqn:G; simpl; [|now split].
  split; [now rewrite keys_update|].
  intros k m Hm. destruct (Hmods k m Hm) as [m' [Hm' Hsame]].
  rewrite JsObjectFacts.get_update, Hm'.
  destruct (String.eqb k (path imp)); simpl; eauto.
Qed.

(** The construction adds [parents] and nothing else: the modules stay the
    same, in the same order, each with its [bytes], [imports] and [format]. *)
Theorem buildParents_keeps_modules (ins : JsObject.t ModuleInfo) :
  map fst (fst (buildParents ins)) = map fst ins /\
  forall k m, JsObject.get ins k = Some m ->
    exists m', JsObject.get (fst (buildParents ins)) k = Some m' /\
               bytes m' = bytes m /\ imports m' = imports m /\ format m' = format m.
Proof.
  change (keepsModules ins (fst (buildParents ins))). unfold buildParents.
  apply (fold_left_invariant addParentsOf (fun a => keepsModules ins (fst a))).
  - intros a b _ Ha. unfold addParentsOf.
    apply (fold_left_invariant (addParent (fst b))
             (fun a => keepsModules ins (fst a))); [|assumption].
    intros a' i _. apply addParent_keepsModules.
  - split; [reflexivity|]. intros k m Hm. exists m. repeat split. assumption.
Qed.

Lemma addParent_line (ins : JsObject.t ModuleInfo) (filename : string)
    (acc : JsObject.t ModuleInfo * list Effect) (imp : ImportEntry) :
  sameKeys ins (fst acc) ->
  snd (addParent filename acc imp) = snd acc ++ [importLine ins filename imp].
Proof.
  destruct acc as [o out]. unfold addParent, importLine. simpl. intros H.
  destruct (JsObject.get o (path imp)) as [m0|] eqn:G; simpl.
  - destruct (JsObject.get ins (path imp)) eqn:G'; [reflexivity|].
    apply H in G'. congruence.
  - apply H in G. now rewrite G.
Qed.

Lemma addParentsOf_lines (ins : JsObject.t ModuleInfo) (filename : string)
    (imps : list ImportEntry) :
  forall acc,
    sameKeys ins (fst acc) ->
    snd (fold_left (addParent filename) imps acc) =
      snd acc ++ map (importLine ins filename) imps.
Proof.
  induction imps as [|i imps IH]; intros acc H; simpl.
  - now rewrite app_nil_r.
  - rewrite IH.
    + rewrite (addParent_line ins filename acc i H). now rewrite <- app_assoc.
    + intros k. rewrite addParent_absent. apply H.
Qed.

Lemma fold_addParentsOf_lines (ins : JsObject.t ModuleInfo)
    (es : list (string * ModuleInfo)) :
  forall acc,
    sameKeys ins (fst acc) ->
    snd (fold_left addParentsOf es acc) =
      snd acc ++
      flat_map (fun entry => map (importLine ins (fst entry)) (imports (snd entry))) es.
Proof.
  induction es as [|e es IH]; intros acc H; simpl.
  - now rewrite app_nil_r.
  - rewrite IH.
    + unfold addParentsOf at 1. rewrite (addParentsOf_lines ins _ _ acc H).
      now rewrite <- app_assoc.
    + intros k. rewrite addParentsOf_absent. apply H.
Qed.

(** The construction prints one line for every import of every module, in
    the order of the metadata: the warning when the target is not a module
    of the metadata, the [parent ..., child: ...] line when it is. *)
Theorem buildParents_console (ins : JsObject.t ModuleInfo) :
  snd (buildParents ins) =
  flat_map (fun entry => map (importLine ins (fst entry)) (imports (snd entry))) ins.
Proof.
  unfold buildParents. rewrite (fold_addParentsOf_lines ins ins (ins, [])).
  - reflexivity.
  - intros k. simpl. tauto.
Qed.

(** ** Names of modules *)

Lemma prefix_append (a b : string) : String.prefix a (a +++ b) = true.
Proof.
  induction a as [|c a IH]; simpl.
  - now destruct b.
  - destruct (ascii_dec c c) as [_|N]; [assumption|contradiction].
Qed.

Lemma drop_append (a b : string) : drop (String.length a) (a +++ b) = b.
Proof. induction a as [|c a IH]; simpl; [now destruct b|assumption]. Qed.

Lemma replaceWithEmpty_unfold (pattern s : string) :
  replaceWithEmpty pattern s =
  if String.prefix pattern s then drop (String.length pattern) s
  else match s with
       | EmptyString => EmptyString
       | String c rest => String c (replaceWithEmpty pattern rest)
       end.
Proof. now destruct s. Qed.

(** A file under [ROOT] is named by its path relative to [ROOT]. *)
Theorem stripRoot_under_root (env : Environment) (relative : string) :
  stripRoot env (ROOT env +++ "/" +++ relative) = relative.
Proof.
  unfold stripRoot. rewrite replaceWithEmpty_unfold, prefix_append, drop_append.
  reflexivity.
Qed.

Lemma replaceWithEmpty_absent (pattern s : string) :
  occurs pattern s = false -> replaceWithEmpty pattern s = s.
Proof.
  induction s as [|c s IH]; intros H; rewrite replaceWithEmpty_unfold;
    cbn [occurs] in H; apply orb_false_iff in H; destruct H as [H1 H2].
  - now rewrite H1.
  - rewrite H1. now rewrite (IH H2).
Qed.

(** A path in which [ROOT] does not occur loses its first character and
    nothing else: a file outside [ROOT] gets a name that is no path of its
    own. *)
Theorem stripRoot_outside_root (env : Environment) (file : string) :
  occurs (ROOT env) file = false ->
  stripRoot env file = substring1 file.
Proof. intros H. unfold stripRoot. now rewrite replaceWithEmpty_absent. Qed.

Lemma stripRoot_outside_root_witness :
  occurs (ROOT (Scenario.env Scenario.nothing)) "/tmp/client/c.ts" = false /\
  stripRoot (Scenario.env Scenario.nothing) "/tmp/client/c.ts" = "tmp/client/c.ts".
Proof.
  split; [reflexivity|].
  apply (stripRoot_outside_root (Scenario.env Scenario.nothing) "/tmp/client/c.ts").
  reflexivity.
Defined.

Lemma drop_all (s : string) : drop (String.length s) s = EmptyString.
Proof. induction s as [|c s IH]; simpl; [reflexivity|assumption]. Qed.

Lemma drop_split (n : nat) :
  forall s, n <= String.length s ->
    exists stem, s = stem +++ drop n s /\ String.length stem = n.
Proof.
  induction n as [|n IH]; intros s H.
  - exists EmptyString. split; [now destruct s|reflexivity].
  - destruct s as [|c s]; simpl in *; [lia|].
    destruct (IH s ltac:(lia)) as [stem [E L]].
    exists (String c stem). simpl. split; [now rewrite <- E|now rewrite L].
Qed.

Lemma length_append (a b : string) :
  String.length (a +++ b) = String.length a + String.length b.
Proof. induction a as [|c a IH]; simpl; [reflexivity|now rewrite IH]. Qed.

Lemma endsWith_spec (s suffix : string) :
  endsWith s suffix = true <-> exists stem, s = stem +++ suffix.
Proof.
  unfold endsWith. rewrite andb_true_iff, Nat.leb_le, String.eqb_eq. split.
  - intros [Hle E].
    destruct (drop_split (String.length s - String.length suffix) s ltac:(lia))
      as [stem [Hs _]].
    exists stem. now rewrite <- E.
  - intros [stem ->]. rewrite length_append. split; [lia|].
    replace (String.length stem + String.length suffix - String.length suffix)
      with (String.length stem) by lia.
    apply drop_append.
Qed.

(** ** The alias map of a module *)

Lemma get_set {V : Type} (o : JsObject.t V) (k k' : string) (v : V) :
  JsObject.get (JsObject.set o k v) k' =
  if String.eqb k' k then Some v else JsObject.get o k'.
Proof.
  induction o as [|[k0 v0] rest IH]; simpl.
  - reflexivity.
  - destruct (String.eqb k k0) eqn:E0; simpl.
    + apply String.eqb_eq in E0. subst k0.
      now destruct (String.eqb k' k).
    + destruct (String.eqb k' k0) eqn:E1; simpl; [|apply IH].
      apply String.eqb_eq in E1. subst k0.
      rewrite String.eqb_sym in E0. now rewrite E0.
Qed.

Lemma keys_set_In {V : Type} (o : JsObject.t V) (k : string) (v : V) (x : string) :
  In x (map fst (JsObject.set o k v)) <-> x = k \/ In x (map fst o).
Proof.
  induction o as [|[k0 v0] rest IH]; simpl.
  - intuition.
  - destruct (String.eqb k k0) eqn:E0; simpl.
    + apply String.eqb_eq in E0. subst k0. intuition.
    + rewrite IH. intuition.
Qed.

Lemma NoDup_keys_set {V : Type} (o : JsObject.t V) (k : string) (v : V) :
  NoDup (map fst o) -> NoDup (map fst (JsObject.set o k v)).
Proof.
  induction o as [|[k0 v0] rest IH]; simpl; intros H.
  - repeat constructor. intros [].
  - inversion H as [|? ? Hnot Hrest]; subst.
    destruct (String.eqb k k0) eqn:E0; simpl; [now constructor|].
    apply String.eqb_neq in E0. constructor; [|now apply IH].
    rewrite keys_set_In. intros [E|Hin]; [congruence|contradiction].
Qed.

Lemma fold_set_lookup (entries : list ImportEntry) (specifier : string) :
  forall acc,
    JsObject.get
      (fold_left (fun prev curr => JsObject.set prev (originalKey curr) (path curr))
         entries acc) specifier =
    match lastAlias entries specifier with
    | Some curr => Some (path curr)
    | None => JsObject.get acc specifier
    end.
Proof.
  induction entries as [|e entries IH]; intros acc; simpl; [reflexivity|].
  rewrite IH. destruct (lastAlias entries specifier); [reflexivity|].
  rewrite get_set. now destruct (String.eqb specifier (originalKey e)).
Qed.

Lemma fold_set_keys (entries : list ImportEntry) :
  forall acc,
    NoDup (map fst acc) ->
    NoDup (map fst
      (fold_left (fun prev curr => JsObject.set prev (originalKey curr) (path curr))
         entries acc)).
Proof.
  induction entries as [|e entries IH]; intros acc H; simpl; [assumption|].
  apply IH. now apply NoDup_keys_set.
Qed.

(** For a module of the graph, [getImportPaths] returns, without any effect,
    a map in which every specifier appears once and stands for the [path] of
    the last import written with it; an import without [original] is filed
    under ["undefined"]. *)
Theorem getImportPaths_last_wins (st : sharedStateT) (meta : ModuleMeta)
    (modulePath : string) (currentFile : ModuleInfo) :
  moduleMeta st = Some meta ->
  JsObject.get (inputs meta) modulePath = Some currentFile ->
  exists aliases,
    getImportPaths modulePath st = (normal aliases, st, []) /\
    NoDup (map fst aliases) /\
    forall specifier,
      JsObject.get aliases specifier =
      option_map path (lastAlias (imports currentFile) specifier).
Proof.
  intros Hmeta Hfile. exists (importPathsOf (imports currentFile)). split.
  - unfold getImportPaths, getModule, currentMeta, bind, ret.
    rewrite Hmeta. simpl. now rewrite Hfile.
  - unfold importPathsOf. split.
    + apply fold_set_keys. constructor.
    + intros specifier. rewrite fold_set_lookup.
      now destruct (lastAlias (imports currentFile) specifier).
Qed.

Lemma getImportPaths_last_wins_witness :
  exists aliases,
    getImportPaths "client/a.ts"
      {| _idx := 0; context := None; bundle := None;
         moduleMeta := Some {| inputs := Cases.doubleInputs |}; clients := [] |}
    = (normal aliases,
       {| _idx := 0; context := None; bundle := None;
          moduleMeta := Some {| inputs := Cases.doubleInputs |}; clients := [] |},
       []) /\
    NoDup (map fst aliases) /\
    forall specifier,
      JsObject.get aliases specifier =
      option_map path
        (lastAlias [Scenario.importing "./b" "client/b.ts";
                    Scenario.importing "./b.ts" "client/b.ts"] specifier).
Proof.
  apply (getImportPaths_last_wins
           {| _idx := 0; context := None; bundle := None;
              moduleMeta := Some {| inputs := Cases.doubleInputs |}; clients := [] |}
           {| inputs := Cases.doubleInputs |} "client/a.ts"
           (Scenario.reported [Scenario.importing "./b" "client/b.ts";
                               Scenario.importing "./b.ts" "client/b.ts"]));
    reflexivity.
Defined.

(** ** What makes the handler act *)

(** The handler transforms, sends, rebuilds or reports an error only for a
    [change] event on a file whose name ends in [.ts], with a client
    connected and a graph in place; anything else gets, at most, lines of
    [console.log]. *)
Theorem handler_acts_on_ts_change (env : Environment) (event file : string)
    (st : sharedStateT) (e : Effect) :
  In e (snd (handler env event file st)) ->
  acts e ->
  event = "change" /\
  (exists stem, file = stem +++ ".ts") /\
  clients st <> [] /\
  moduleMeta st <> None.
Proof.
  unfold handler.
  destruct (String.eqb event "change") eqn:Ev; simpl; [|intros []].
  destruct (endsWith file ".ts") eqn:Ts; simpl; [|intros []].
  unfold bind at 1 2, emit, gets. simpl.
  destruct (clients st) as [|s l] eqn:Hc.
  - simpl. intros [<-|[]] [].
  - unfold bind at 1 2, emit, currentMeta. simpl.
    destruct (moduleMeta st) as [meta|] eqn:Hm.
    + intros _ _. apply String.eqb_eq in Ev. apply endsWith_spec in Ts.
      repeat split; [assumption|assumption|discriminate|discriminate].
    + simpl. intros [<-|[<-|[]]] [].
Qed.

Lemma handler_acts_on_ts_change_witness :
  "change" = "change" /\
  (exists stem, "/proj/client/c.ts" = stem +++ ".ts") /\
  clients (Scenario.serving [1]) <> [] /\
  moduleMeta (Scenario.serving [1]) <> None.
Proof.
  apply (handler_acts_on_ts_change (Scenario.env Scenario.nothing) "change"
           "/proj/client/c.ts" (Scenario.serving [1])
           (swc_transform "/proj/client/c.ts" "client/c.ts" true [])).
  - vm_compute. right. right. right. now left.
  - exact I.
Defined.

(** ** What an operation may change in [sharedState] *)

Section Frames.

Variable env : Environment.

Lemma steady_refl (st : sharedStateT) : steady st st.
Proof. unfold steady. auto. Qed.

Lemma steady_trans (a b c : sharedStateT) : steady a b -> steady b c -> steady a c.
Proof. unfold steady. intros [H1 [H2 H3]] [K1 [K2 K3]]. repeat split; try congruence. lia. Qed.

Lemma still_refl (st : sharedStateT) : still st st.
Proof. unfold still. auto using steady_refl. Qed.

Lemma still_trans (a b c : sharedStateT) : still a b -> still b c -> still a c.
Proof.
  unfold still. intros [H1 [H2 H3]] [K1 [K2 K3]].
  repeat split; try congruence; apply (steady_trans a b c H1 K1).
Qed.

Lemma respects_bind {A B : Type} (R : sharedStateT -> sharedStateT -> Prop)
    (m : Run A) (k : A -> Run B) :
  (forall a b c, R a b -> R b c -> R a c) ->
  respects R m -> (forall a, respects R (k a)) -> respects R (bind m k).
Proof.
  intros Htrans Hm Hk st. unfold bind. specialize (Hm st).
  destruct (m st) as [[[a|e] st1] out1]; simpl in *; [|assumption].
  specialize (Hk a st1). destruct (k a st1) as [[c st2] out2]. simpl in *.
  now apply Htrans with st1.
Qed.

Lemma respects_catch {A : Type} (R : sharedStateT -> sharedStateT -> Prop)
    (m : Run A) (h : Error -> Run A) :
  (forall a b c, R a b -> R b c -> R a c) ->
  respects R m -> (forall e, respects R (h e)) -> respects R (catch m h).
Proof.
  intros Htrans Hm Hh st. unfold catch. specialize (Hm st).
  destruct (m st) as [[[a|e] st1] out1]; simpl in *; [assumption|].
  specialize (Hh e st1). destruct (h e st1) as [[c st2] out2]. simpl in *.
  now apply Htrans with st1.
Qed.

Lemma still_transformCode (file : string) (runtimeModule : bool)
    (importPaths : JsObject.t string) :
  respects still (transformCode env file runtimeModule importPaths).
Proof.
  intros st. unfold transformCode, bind, emit, throw, ret, nextContextVariableName.
  destruct (transform env file (stripRoot env file) runtimeModule importPaths);
    simpl; [|apply still_refl].
  unfold still, steady. simpl. repeat split. lia.
Qed.

Lemma still_getImportPaths (modulePath : string) :
  respects still (getImportPaths modulePath).
Proof.
  intros st. unfold getImportPaths, getModule, currentMeta, bind, emit, ret.
  destruct (moduleMeta st) as [meta|]; simpl; [|apply still_refl].
  destruct (JsObject.get (inputs meta) modulePath); apply still_refl.
Qed.

Lemma still_updateChain (strippedPath : string) (modules : list string) :
  respects still (updateChain env strippedPath modules).
Proof.
  induction modules as [|m modules IH]; simpl; [intros st; apply still_refl|].
  apply respects_bind; [apply still_trans| |intros _; assumption].
  unfold updateStep.
  apply respects_bind; [apply still_trans|apply still_getImportPaths|].
  intros importPaths.
  apply respects_bind; [apply still_trans|apply still_transformCode|].
  intros code st. apply still_refl.
Qed.

Lemma still_runBuild (b : Build) : respects still (runBuild env b).
Proof.
  induction b as [file next IH|result|reason]; simpl;
    try (intros st; apply still_refl).
  apply respects_bind; [apply still_trans|intros st; apply still_refl|].
  intros _.
  apply respects_bind; [apply still_trans|apply still_transformCode|assumption].
Qed.

Lemma steady_onEnd (result : BuildResult) : respects steady (onEnd result).
Proof.
  intros st. unfold onEnd.
  destruct (buildParents (inputs (metafile result))) as [graph out].
  unfold bind, emit, emitAll, modify, throw.
  destruct (outputFiles result); simpl; unfold steady; simpl; auto.
Qed.

Lemma steady_rebuild (c : BuildContext) : respects steady (rebuild env c).
Proof.
  unfold rebuild.
  apply respects_bind; [apply steady_trans|intros st; apply steady_refl|]. intros _.
  apply respects_bind; [apply steady_trans|intros st; apply steady_refl|]. intros _.
  apply respects_bind; [apply steady_trans| |apply steady_onEnd].
  intros st. apply still_runBuild.
Qed.

Lemma steady_onTransformError (error : Error) :
  respects steady (onTransformError env error).
Proof.
  unfold onTransformError.
  apply respects_bind; [apply steady_trans|intros st; apply steady_refl|]. intros _.
  apply respects_bind; [apply steady_trans|intros st; apply steady_refl|].
  intros [c|]; [|intros st; apply steady_refl].
  apply respects_bind; [apply steady_trans|apply steady_rebuild|].
  intros _ st. apply steady_refl.
Qed.

Lemma respects_handler (R : sharedStateT -> sharedStateT -> Prop)
    (event file : string) :
  (forall a, R a a) ->
  (forall a b c, R a b -> R b c -> R a c) ->
  (forall rd, respects R (updateChain env (stripRoot env file) rd)) ->
  (forall e, respects R (onTransformError env e)) ->
  respects R (handler env event file).
Proof.
  intros Hrefl Htrans Hchain Herr. unfold handler.
  destruct (negb (String.eqb event "change") || negb (endsWith file ".ts"));
    [intros st; apply Hrefl|].
  apply respects_bind; [assumption|intros st; apply Hrefl|]. intros _.
  intros st. unfold bind at 1, gets. simpl.
  destruct (clients st) as [|s l]; [apply Hrefl|].
  unfold bind at 1 2, emit, currentMeta. simpl.
  destruct (moduleMeta st) as [meta|]; [|apply Hrefl]. simpl.
  destruct (resolve (stackDepth env) meta (stripRoot env file)) as [rd|];
    [|apply Hrefl].
  unfold bind at 1, emit. simpl.
  pose proof (respects_catch R (updateChain env (stripRoot env file) rd)
                (onTransformError env) Htrans (Hchain rd) Herr st) as H.
  destruct (catch _ _ st) as [[c st'] out]. exact H.
Qed.

Lemma still_steady (a b : sharedStateT) : still a b -> steady a b.
Proof. now intros [H _]. Qed.

Lemma steady_handler (event file : string) :
  respects steady (handler env event file).
Proof.
  apply respects_handler.
  - apply steady_refl.
  - apply steady_trans.
  - intros rd st. apply still_steady, still_updateChain.
  - apply steady_onTransformError.
Qed.

(** With [context] at [null] the recovery changes nothing. *)
Lemma still_handler_null (event file : string) (st : sharedStateT) :
  context st = None ->
  still st (snd (fst (handler env event file st))).
Proof.
  intros Hnull.
  set (R := fun a b : sharedStateT => context a = None -> still a b /\ context b = None).
  assert (H : respects R (handler env event file)).
  { apply respects_handler; unfold R.
    - intros a Ha. split; [apply still_refl|assumption].
    - intros a b c Hab Hbc Ha. destruct (Hab Ha) as [S1 Hb].
      destruct (Hbc Hb) as [S2 Hc]. split; [now apply still_trans with b|assumption].
    - intros rd a Ha. pose proof (still_updateChain (stripRoot env file) rd a) as S.
      split; [assumption|]. destruct S as [[_ [Hctx _]] _]. congruence.
    - intros e a Ha. rewrite (onTransformError_null env e a Ha). simpl.
      split; [apply still_refl|assumption]. }
  now apply H.
Qed.

End Frames.

(** A change event never touches the clients or [context] and never moves
    the counter back; and as long as [context] is [null], which it is in
    every state the server reaches, it leaves the bundle and the graph as
    they are. *)
Theorem handler_frame (env : Environment) (event file : string) (st : sharedStateT) :
  clients (snd (fst (handler env event file st))) = clients st /\
  context (snd (fst (handler env event file st))) = context st /\
  _idx st <= _idx (snd (fst (handler env event file st))) /\
  (context st = None ->
   bundle (snd (fst (handler env event file st))) = bundle st /\
   moduleMeta (snd (fst (handler env event file st))) = moduleMeta st).
Proof.
  destruct (steady_handler env event file st) as [H1 [H2 H3]].
  repeat split; try assumption;
    destruct (still_handler_null env event file st H) as [_ [K1 K2]]; assumption.
Qed.

Lemma evolves_extends (st st' : sharedStateT) :
  evolves st st' ->
  (exists later, clients st' = clients st ++ later) /\ _idx st <= _idx st'.
Proof.
  induction 1 as [st|env st st' E [[later IH1] IH2]
                 |client st st' E [[later IH1] IH2]
                 |env event file st st' E [[later IH1] IH2]].
  - split; [exists []; now rewrite app_nil_r|lia].
  - destruct (steady_rebuild env esbuild_context st') as [H1 [_ H3]].
    split; [exists later; congruence|lia].
  - simpl. split; [|assumption].
    exists (later ++ [client]). rewrite IH1. now rewrite app_assoc.
  - destruct (steady_handler env event file st') as [H1 [_ H3]].
    split; [exists later; congruence|lia].
Qed.

(** The server never drops a client, not even one that has gone away, and
    never moves the counter back: whatever happens between two states, the
    later [clients] extend the earlier ones. *)
Theorem evolves_keeps_clients (st st' : sharedStateT) :
  evolves st st' ->
  (exists later, clients st' = clients st ++ later) /\ _idx st <= _idx st'.
Proof.
  intros E. destruct (evolves_extends st st' E) as [[later H1] H2].
  split; [now exists later|assumption].
Qed.

Lemma evolves_keeps_clients_witness :
  evolves sharedState (Scenario.serving [1; 2]) /\
  (exists later, clients (Scenario.serving [1; 2]) = clients sharedState ++ later) /\
  _idx sharedState <= _idx (Scenario.serving [1; 2]).
Proof.
  assert (H : evolves sharedState (Scenario.serving [1; 2])).
  { exact (evolves_connection 2 _ _
             (evolves_connection 1 _ _
                (evolves_rebuild (Scenario.env Scenario.nothing) _ _
                   (evolves_here sharedState)))). }
  split; [exact H|].
  exact (evolves_keeps_clients sharedState (Scenario.serving [1; 2]) H).
Defined.

Lemma to_uint_nonnil (n : nat) : Nat.to_uint n <> Nil.
Proof.
  rewrite <- (DecimalNat.Unsigned.of_to n) at 1.
  rewrite DecimalNat.Unsigned.to_of. apply DecimalFacts.unorm_nonnil.
Qed.

Lemma string_of_nat_inj (n m : nat) : string_of_nat n = string_of_nat m -> n = m.
Proof.
  unfold string_of_nat. intros H.
  apply DecimalNat.Unsigned.to_uint_inj.
  pose proof (NilZero.usu (Nat.to_uint n) (to_uint_nonnil n)) as Hn.
  pose proof (NilZero.usu (Nat.to_uint m) (to_uint_nonnil m)) as Hm.
  rewrite H in Hn. congruence.
Qed.

(** A variable name given out once is never given out again: the name made
    in any later state differs. *)
Theorem contextVariableName_fresh (st1 st1' st2 st2' : sharedStateT)
    (name1 name2 : string) (out1 out2 : list Effect) :
  nextContextVariableName st1 = (normal name1, st1', out1) ->
  evolves st1' st2 ->
  nextContextVariableName st2 = (normal name2, st2', out2) ->
  name1 <> name2.
Proof.
  unfold nextContextVariableName. intros [= <- <- _] E [= <- _ _] Heq.
  apply evolves_extends in E. destruct E as [_ Hle]. simpl in Hle.
  injection Heq as Heq. apply string_of_nat_inj in Heq. lia.
Qed.

Lemma contextVariableName_fresh_witness :
  nextContextVariableName Scenario.started =
    (normal "__hmr3", withIdx Scenario.started 4, []) /\
  evolves (withIdx Scenario.started 4)
    (snd (fst (onConnection 1 (withIdx Scenario.started 4)))) /\
  nextContextVariableName (snd (fst (onConnection 1 (withIdx Scenario.started 4)))) =
    (normal "__hmr4",
     withIdx (snd (fst (onConnection 1 (withIdx Scenario.started 4)))) 5, []) /\
  "__hmr3" <> "__hmr4".
Proof.
  assert (E : evolves (withIdx Scenario.started 4)
                (snd (fst (onConnection 1 (withIdx Scenario.started 4))))).
  { apply evolves_connection, evolves_here. }
  split; [reflexivity|]. split; [exact E|]. split; [reflexivity|].
  apply (contextVariableName_fresh Scenario.started
           (withIdx Scenario.started 4)
           (snd (fst (onConnection 1 (withIdx Scenario.started 4))))
           (withIdx (snd (fst (onConnection 1 (withIdx Scenario.started 4)))) 5)
           "__hmr3" "__hmr4" [] []).
  - reflexivity.
  - exact E.
  - reflexivity.
Defined.

(** ** The sends of an undisturbed event *)

Section Broadcast.

Variable env : Environment.

Lemma broadcast_app (sockets : list WebSocket) (a b : list string) :
  broadcast sockets (a ++ b) = broadcast sockets a ++ broadcast sockets b.
Proof. unfold broadcast. apply flat_map_app. Qed.

Lemma broadcasts_app (sockets : list WebSocket) (a b : list Effect) :
  broadcasts sockets a -> broadcasts sockets b -> broadcasts sockets (a ++ b).
Proof.
  intros [ma Ha] [mb Hb]. exists (ma ++ mb).
  now rewrite sends_app, broadcast_app, Ha, Hb.
Qed.

Lemma broadcasts_silent (sockets : list WebSocket) (out : list Effect) :
  sends out = [] -> broadcasts sockets out.
Proof. intros H. exists []. now rewrite H. Qed.

Lemma broadcasts_sendToClients (message : string) (st : sharedStateT) :
  broadcasts (clients st) (snd (sendToClients message st)).
Proof.
  exists [message]. unfold sendToClients, broadcast. simpl.
  now rewrite sends_sockets, app_nil_r.
Qed.

Lemma still_clients (a b : sharedStateT) : still a b -> clients b = clients a.
Proof. now intros [[H _] _]. Qed.

Lemma still_updateStep (strippedPath modulePath : string) :
  respects still (updateStep env strippedPath modulePath).
Proof.
  unfold updateStep.
  apply respects_bind; [apply still_trans|apply still_getImportPaths|].
  intros importPaths.
  apply respects_bind; [apply still_trans|apply still_transformCode|].
  intros code st. apply still_refl.
Qed.

Lemma broadcasts_updateStep (strippedPath modulePath : string) (st : sharedStateT) :
  broadcasts (clients st) (snd (updateStep env strippedPath modulePath st)).
Proof.
  unfold updateStep, bind at 1.
  pose proof (still_getImportPaths modulePath st) as S1.
  destruct (getImportPaths modulePath st) as [[[importPaths|e] st1] out1] eqn:E1;
    simpl in S1.
  - assert (H1 : sends out1 = []).
    { revert E1. unfold getImportPaths, getModule, currentMeta, bind, emit, ret.
      destruct (moduleMeta st) as [meta|]; simpl; [|now intros [= <- <-]].
      destruct (JsObject.get (inputs meta) modulePath); simpl;
        now intros [= <- <- <-]. }
    unfold bind.
    pose proof (sends_transformCode env
                  (path_join env (ROOT env) modulePath) true importPaths st1) as H2.
    pose proof (still_transformCode env
                  (path_join env (ROOT env) modulePath) true importPaths st1) as S2.
    destruct (transformCode env (path_join env (ROOT env) modulePath) true
                importPaths st1) as [[[code|e] st2] out2]; simpl in *.
    + apply broadcasts_app; [now apply broadcasts_silent|].
      apply broadcasts_app; [now apply broadcasts_silent|].
      rewrite <- (still_clients _ _ (still_trans _ _ _ S1 S2)).
      apply (broadcasts_sendToClients _ st2).
    + apply broadcasts_app; now apply broadcasts_silent.
  - simpl. apply broadcasts_silent.
    revert E1. unfold getImportPaths, getModule, currentMeta, bind, emit, ret.
    destruct (moduleMeta st) as [meta|]; simpl; [|now intros [= _ _ <-]].
    destruct (JsObject.get (inputs meta) modulePath); simpl; discriminate.
Qed.

Lemma broadcasts_updateChain (strippedPath : string) (modules : list string) :
  forall st,
    broadcasts (clients st) (snd (updateChain env strippedPath modules st)).
Proof.
  induction modules as [|m modules IH]; intros st; simpl.
  - now apply broadcasts_silent.
  - unfold bind. pose proof (broadcasts_updateStep strippedPath m st) as H1.
    pose proof (still_updateStep strippedPath m st) as S1.
    destruct (updateStep env strippedPath m st) as [[[u|e] st1] out1];
      simpl in *; [|assumption].
    specialize (IH st1). rewrite (still_clients _ _ S1) in IH.
    destruct (updateChain env strippedPath modules st1) as [[c st2] out2].
    now apply broadcasts_app.
Qed.

Lemma broadcasts_onTransformError (error : Error) (st : sharedStateT) :
  broadcasts (clients st) (snd (onTransformError env error st)).
Proof.
  unfold onTransformError, bind at 1 2, emit, gets. simpl.
  destruct (context st) as [c|]; [|now apply broadcasts_silent].
  unfold bind. pose proof (sends_rebuild env c st) as Hr.
  destruct (steady_rebuild env c st) as [Hc _].
  destruct (rebuild env c st) as [[[u|e] st1] out1]; simpl in *.
  - apply (broadcasts_app _ [_]); [now apply broadcasts_silent|].
    apply broadcasts_app; [now apply broadcasts_silent|].
    rewrite <- Hc. apply (broadcasts_sendToClients _ st1).
  - apply (broadcasts_app _ [_]); now apply broadcasts_silent.
Qed.

End Broadcast.

(** With nothing else running while the event is handled, its messages go,
    one after the other, each to every client connected, in the order in
    which the clients connected. *)
Lemma handler_broadcasts (env : Environment) (event file : string)
    (st : sharedStateT) :
  exists messages,
    sends (snd (handler env event file st)) = broadcast (clients st) messages.
Proof.
  change (broadcasts (clients st) (snd (handler env event file st))).
  unfold handler.
  destruct (negb (String.eqb event "change") || negb (endsWith file ".ts"));
    [now apply broadcasts_silent|].
  unfold bind at 1 2, emit, gets. simpl.
  destruct (clients st) as [|s l] eqn:Hc; [now apply broadcasts_silent|].
  unfold bind at 1 2, emit, currentMeta. simpl.
  destruct (moduleMeta st) as [meta|]; [|now apply broadcasts_silent].
  simpl.
  destruct (resolve (stackDepth env) meta (stripRoot env file)) as [rd|];
    [|now apply broadcasts_silent].
  unfold bind, emit, catch. simpl.
  pose proof (broadcasts_updateChain env (stripRoot env file) rd st) as H1.
  pose proof (still_updateChain env (stripRoot env file) rd st) as S1.
  rewrite Hc in H1.
  destruct (updateChain env (stripRoot env file) rd st) as [[[u|e] st1] out1];
    simpl in *.
  - apply (broadcasts_app _ [_; _; _]); [now apply broadcasts_silent|assumption].
  - pose proof (broadcasts_onTransformError env e st1) as H2.
    rewrite (still_clients _ _ S1), Hc in H2.
    destruct (onTransformError env e st1) as [[c st2] out2]. simpl in *.
    apply (broadcasts_app _ [_; _; _]); [now apply broadcasts_silent|].
    now apply broadcasts_app.
Qed.

(** ** The bundle and the graph *)

Section Paired.

Variable env : Environment.

Lemma keepsPaired_refl (a : sharedStateT) : keepsPaired a a.
Proof. unfold keepsPaired. auto. Qed.

Lemma keepsPaired_trans (a b c : sharedStateT) :
  keepsPaired a b -> keepsPaired b c -> keepsPaired a c.
Proof. unfold keepsPaired. auto. Qed.

Lemma still_keepsPaired (a b : sharedStateT) : still a b -> keepsPaired a b.
Proof. intros [_ [H1 H2]]. unfold keepsPaired, paired. now rewrite H1, H2. Qed.

Lemma keepsPaired_onEnd (result : BuildResult) : respects keepsPaired (onEnd result).
Proof.
  intros st. unfold onEnd.
  destruct (buildParents (inputs (metafile result))) as [graph out].
  unfold bind, emit, emitAll, modify, throw.
  destruct (outputFiles result); simpl; [apply keepsPaired_refl|].
  intros _. unfold paired. simpl. split; discriminate.
Qed.

Lemma keepsPaired_rebuild (c : BuildContext) : respects keepsPaired (rebuild env c).
Proof.
  unfold rebuild.
  apply respects_bind; [apply keepsPaired_trans|intros st; apply keepsPaired_refl|].
  intros _.
  apply respects_bind; [apply keepsPaired_trans|intros st; apply keepsPaired_refl|].
  intros _.
  apply respects_bind; [apply keepsPaired_trans| |apply keepsPaired_onEnd].
  intros st. apply still_keepsPaired, still_runBuild.
Qed.

Lemma keepsPaired_onTransformError (error : Error) :
  respects keepsPaired (onTransformError env error).
Proof.
  unfold onTransformError.
  apply respects_bind; [apply keepsPaired_trans|intros st; apply keepsPaired_refl|].
  intros _.
  apply respects_bind; [apply keepsPaired_trans|intros st; apply keepsPaired_refl|].
  intros [c|]; [|intros st; apply keepsPaired_refl].
  apply respects_bind; [apply keepsPaired_trans|apply keepsPaired_rebuild|].
  intros _ st. apply keepsPaired_refl.
Qed.

Lemma keepsPaired_handler (event file : string) :
  respects keepsPaired (handler env event file).
Proof.
  apply respects_handler.
  - apply keepsPaired_refl.
  - apply keepsPaired_trans.
  - intros rd st. apply still_keepsPaired, still_updateChain.
  - apply keepsPaired_onTransformError.
Qed.

End Paired.

Lemma reachableState_paired (st : sharedStateT) : reachableState st -> paired st.
Proof.
  induction 1 as [|env st R IH|client st R IH|env event file st R IH].
  - unfold paired. simpl. tauto.
  - now apply (keepsPaired_rebuild env esbuild_context st).
  - exact IH.
  - now apply (keepsPaired_handler env event file st).
Qed.

(** In every state the server reaches, [GET /bundle.js] is answered with 200
    exactly when the module graph is in place, and with 404 before; bundle
    and graph are only ever stored together. *)
Theorem bundle_served_iff_graph (st : sharedStateT) :
  reachableState st ->
  (fst (bundleRoute st) = 200 <-> moduleMeta st <> None) /\
  (fst (bundleRoute st) = 404 <-> moduleMeta st = None).
Proof.
  intros R. apply reachableState_paired in R. unfold paired in R.
  unfold bundleRoute. destruct (bundle st) as [b|]; simpl.
  - split; split; try discriminate; intros H.
    + intros K. apply R in K. discriminate.
    + reflexivity.
    + apply R in H. discriminate.
  - split; split; try discriminate; intros H.
    + exfalso. apply H. now apply R.
    + now apply R.
    + reflexivity.
Qed.

Lemma bundle_served_iff_graph_witness :
  reachableState (Scenario.serving [1]) /\
  (fst (bundleRoute (Scenario.serving [1])) = 200 <->
   moduleMeta (Scenario.serving [1]) <> None) /\
  (fst (bundleRoute (Scenario.serving [1])) = 404 <->
   moduleMeta (Scenario.serving [1]) = None).
Proof.
  split; [apply serving_reachable|].
  apply (bundle_served_iff_graph (Scenario.serving [1])), serving_reachable.
Defined.

(** A rebuild that completes stores the bundle and the graph of one and the
    same build: [GET /bundle.js] then answers with the first output file of
    the result from whose metadata the graph was made. *)
Theorem rebuild_stores_one_build (env : Environment) (c : BuildContext)
    (st st' : sharedStateT) (out : list Effect) :
  rebuild env c st = (normal tt, st', out) ->
  exists result file files st1 out1,
    runBuild env (esbuild env) st = (normal result, st1, out1) /\
    outputFiles result = file :: files /\
    bundleRoute st' = (200, contents file) /\
    moduleMeta st' =
      Some {| inputs := fst (buildParents (inputs (metafile result))) |} /\
    _idx st' = _idx st1.
Proof.
  unfold rebuild, bind at 1 2 3, emit. simpl.
  destruct (runBuild env (esbuild env) st) as [[[result|e] st1] out1];
    [|discriminate].
  destruct (outputFiles result) as [|file files] eqn:Hfiles.
  - unfold onEnd. destruct (buildParents (inputs (metafile result))) as [graph o].
    unfold bind, emit, emitAll, throw. rewrite Hfiles. simpl. discriminate.
  - rewrite (onEnd_run result file files st1 Hfiles). intros [= <- _].
    exists result, file, files, st1, out1. repeat split. assumption.
Qed.

Lemma rebuild_stores_one_build_witness :
  exists result file files st1 out1,
    runBuild (Scenario.env Scenario.nothing)
      (esbuild (Scenario.env Scenario.nothing)) sharedState
      = (normal result, st1, out1) /\
    outputFiles result = file :: files /\
    bundleRoute Scenario.started = (200, contents file) /\
    moduleMeta Scenario.started =
      Some {| inputs := fst (buildParents (inputs (metafile result))) |} /\
    _idx Scenario.started = _idx st1.
Proof.
  apply (rebuild_stores_one_build (Scenario.env Scenario.nothing) esbuild_context
           sharedState Scenario.started
           (snd (rebuild (Scenario.env Scenario.nothing) esbuild_context sharedState))).
  vm_compute. reflexivity.
Defined.

(** ** The traversal, further *)

Section Accumulator.

Variable meta : ModuleMeta.

Lemma forEachM_accumulates (n : nat) :
  (forall t d, getReverseDependencies n meta t d =
               extend d (getReverseDependencies n meta t [])) ->
  forall ps d,
    forEachM (visit meta n) ps d = extend d (forEachM (visit meta n) ps []).
Proof.
  intros IH ps. induction ps as [|p ps IHps]; intros d; simpl.
  - now rewrite app_nil_r.
  - unfold visit at 1 3. rewrite (IH p (d ++ [p])), (IH p ([] ++ [p])).
    destruct (getReverseDependencies n meta p []) as [e|]; simpl; [|reflexivity].
    rewrite (IHps ((d ++ [p]) ++ e)), (IHps (p :: e)).
    destruct (forEachM (visit meta n) ps []) as [r|]; simpl; [|reflexivity].
    now rewrite <- !app_assoc.
Qed.

Lemma walk_accumulates (n : nat) :
  forall t d,
    getReverseDependencies n meta t d =
    extend d (getReverseDependencies n meta t []).
Proof.
  induction n as [|n IH]; intros t d; [reflexivity|].
  rewrite !walk_S. destruct (parentsOf meta t) as [ps|].
  - now apply forEachM_accumulates.
  - simpl. now rewrite app_nil_r.
Qed.

End Accumulator.

(** The list handed to [getReverseDependencies] is only ever a prefix: the
    call returns it followed by what the call on the empty list returns, and
    returns nothing exactly when that call returns nothing. *)
Theorem getReverseDependencies_appends (fuel : nat) (meta : ModuleMeta)
    (targetModule : string) (dependencies : list string) :
  getReverseDependencies fuel meta targetModule dependencies =
  match getReverseDependencies fuel meta targetModule [] with
  | Some found => Some (dependencies ++ found)
  | None => None
  end.
Proof. apply walk_accumulates. Qed.

Section Tree.

Variable meta : ModuleMeta.

Lemma returns_acyclic (n : nat) (t : string) (r : list string) :
  getReverseDependencies n meta t [] = Some r -> ~ ancestor meta t t.
Proof.
  intros H A. rewrite (walk_on_cycle meta t A n []) in H. discriminate.
Qed.

Lemma reachable_trans (x y z : string) :
  reachable meta x y -> reachable meta y z -> reachable meta x z.
Proof.
  induction 1 as [|x p y E R IH]; intros H; [assumption|].
  apply (rt1n_trans _ _ _ p); [assumption|now apply IH].
Qed.

Lemma diamondFree_parent (t p : string) :
  diamondFree meta t -> parentEdge meta t p -> diamondFree meta p.
Proof.
  intros H E y ps R. apply H.
  apply (rt1n_trans _ _ _ p); assumption.
Qed.

Lemma walk_nodup (n : nat) :
  forall t r,
    diamondFree meta t ->
    getReverseDependencies n meta t [] = Some r ->
    NoDup r.
Proof.
  induction n as [|n IH]; intros t r Htree H; [discriminate|].
  rewrite walk_S in H. destruct (parentsOf meta t) as [ps|] eqn:P;
    [|injection H as <-; constructor].
  destruct (Htree t ps (rt1n_refl _ _ _) P) as [NDps Hdis].
  assert (G : forall ps' d r,
             incl ps' ps -> NoDup ps' -> NoDup d ->
             (forall y p, In y d -> In p ps' -> ~ reachable meta p y) ->
             forEachM (visit meta n) ps' d = Some r -> NoDup r).
  { clear H r. induction ps' as [|p ps' IHps]; intros d r Hincl ND NDd Hd H;
      simpl in H.
    - now injection H as <-.
    - unfold visit at 1 in H. rewrite walk_accumulates in H.
      destruct (getReverseDependencies n meta p []) as [e|] eqn:E;
        [|discriminate].
      simpl in H.
      assert (Ep : parentEdge meta t p).
      { exists ps. split; [assumption|]. apply Hincl. now left. }
      assert (NDe : NoDup e).
      { apply (IH p e); [now apply diamondFree_parent with t|assumption]. }
      assert (He : forall y, In y e -> ancestor meta p y).
      { intros y Hy. destruct (walk_sound meta n p [] e E y Hy) as [[]|A].
        assumption. }
      inversion ND as [|? ? Hp NDrest]; subst.
      apply (IHps ((d ++ [p]) ++ e) r); try assumption.
      + intros q Hq. apply Hincl. now right.
      + rewrite <- app_assoc. apply NoDup_app; [assumption| |].
        * simpl. constructor; [|assumption].
          intros Hin. apply (returns_acyclic n p e E). now apply He.
        * intros y Hy Hin. apply (Hd y p Hy (or_introl eq_refl)).
          apply reachable_cases. destruct Hin as [<-|Hin]; [now left|].
          right. now apply He.
      + intros y q Hy Hq Rq.
        rewrite <- app_assoc in Hy. apply in_app_iff in Hy.
        destruct Hy as [Hy|Hy].
        * now apply (Hd y q Hy (or_intror Hq)).
        * apply (Hdis p q y).
          -- apply Hincl. now left.
          -- apply Hincl. now right.
          -- intros ->. contradiction.
          -- apply reachable_cases. destruct Hy as [<-|Hy]; [now left|].
             right. now apply He.
          -- assumption. }
  apply (G ps [] r); try assumption.
  - apply incl_refl.
  - constructor.
  - intros y p [].
Qed.

End Tree.

(** When no cycle can be reached from the changed module [X] and, from [X]
    on, no two parents of a module lead to a common module, the resolution
    lists every id once. *)
Theorem resolve_without_diamond (meta : ModuleMeta) (X : string) (fuel : nat) :
  (forall y, reachable meta X y -> ~ ancestor meta y y) ->
  diamondFree meta X ->
  List.length (inputs meta) < fuel ->
  exists r, resolve fuel meta X = Some r /\ NoDup r.
Proof.
  intros Hacyclic Htree Hfuel.
  destruct (walk_total meta X Hacyclic fuel [] Hfuel) as [deps Hdeps].
  exists (X :: deps). split; [now apply resolve_run|].
  constructor; [|now apply (walk_nodup meta fuel X)].
  intros Hin. destruct (walk_sound meta fuel X [] deps Hdeps X Hin) as [[]|A].
  apply (Hacyclic X); [apply rt1n_refl|assumption].
Qed.

Lemma singleParents_diamondFree (meta : ModuleMeta) (X : string) :
  singleParentsb meta = true -> diamondFree meta X.
Proof.
  unfold singleParentsb. rewrite forallb_forall. intros H y ps _ P.
  unfold parentsOf in P.
  destruct (JsObject.get (inputs meta) y) as [m|] eqn:G; [|discriminate].
  apply JsObjectFacts.get_In in G. specialize (H _ G). simpl in H.
  rewrite P in H. apply Nat.leb_le in H.
  destruct ps as [|a [|b ps]]; simpl in H; [| |lia].
  - split; [constructor|]. intros p q z [].
  - split; [repeat constructor; intros []|].
    intros p q z [<-|[]] [<-|[]] N. now contradiction N.
Qed.

Lemma resolve_without_diamond_witness :
  diamondFree (Scenario.chainGraph "client/a.ts" "client/b.ts" "client/c.ts")
    "client/c.ts" /\
  exists r,
    resolve 4 (Scenario.chainGraph "client/a.ts" "client/b.ts" "client/c.ts")
      "client/c.ts" = Some r /\ NoDup r.
Proof.
  assert (H : forall y,
             reachable (Scenario.chainGraph "client/a.ts" "client/b.ts" "client/c.ts")
               "client/c.ts" y ->
             ~ ancestor (Scenario.chainGraph "client/a.ts" "client/b.ts" "client/c.ts") y y).
  { intros y _. apply ranked_acyclic with (rank := Scenario.chainRank).
    apply rankedb_ranked. vm_compute. reflexivity. }
  assert (T : diamondFree (Scenario.chainGraph "client/a.ts" "client/b.ts" "client/c.ts")
                "client/c.ts").
  { apply singleParents_diamondFree. vm_compute. reflexivity. }
  split; [exact T|].
  apply (resolve_without_diamond _ "client/c.ts" 4 H T). vm_compute. lia.
Defined.

Lemma serverTs_handler_run (env : Environment) (file code : string)
    (st : sharedStateT) (meta : ModuleMeta) :
  endsWith file ".ts" = true ->
  clients st <> [] ->
  moduleMeta st = Some meta ->
  transform env file (stripRoot env file) true (aliasesOf meta (stripRoot env file))
    = Some code ->
  exists out,
    ServerTs.handler env "change" file st = (normal tt, withIdx st (S (_idx st)), out) /\
    sends out =
      map (fun socket =>
             (socket,
              stringifyMessage
                (update
                   (wrapModule ("__hmr" +++ string_of_nat (_idx st))
                      (stripRoot env file) code)
                   (stripRoot env file))))
          (clients st).
Proof.
  intros Hts Hclients Hmeta Hcode.
  unfold ServerTs.handler, ServerTs.getImportPaths, ServerTs.getModule, currentMeta,
    catch, ServerTs.transformCode, bind, emit, ret, gets, nextContextVariableName,
    sendToClients.
  rewrite Hts. simpl.
  destruct (clients st) as [|s l] eqn:Hc; [contradiction|].
  rewrite Hmeta. unfold aliasesOf in Hcode.
  destruct (JsObject.get (inputs meta) (stripRoot env file)) as [m|]; simpl;
    rewrite Hcode; simpl; rewrite Hc; eexists; (split; [reflexivity|]);
    simpl; rewrite sends_sockets; reflexivity.
Qed.

(** In [server.ts] an update names the module it was made from: when the
    transformer answers, every client is sent one [update] whose [id] is the
    name the code in [body] registers, and the counter moves by one. *)
Theorem serverTs_update_names_its_module (env : Environment) (file code : string)
    (st : sharedStateT) (meta : ModuleMeta) :
  endsWith file ".ts" = true ->
  clients st <> [] ->
  moduleMeta st = Some meta ->
  transform env file (stripRoot env file) true (aliasesOf meta (stripRoot env file))
    = Some code ->
  sends (snd (ServerTs.handler env "change" file st)) =
    map (fun socket =>
           (socket,
            stringifyMessage
              (update
                 (wrapModule ("__hmr" +++ string_of_nat (_idx st))
                    (stripRoot env file) code)
                 (stripRoot env file))))
        (clients st)
  /\ snd (fst (ServerTs.handler env "change" file st)) = withIdx st (S (_idx st)).
Proof.
  intros Hts Hclients Hmeta Hcode.
  destruct (serverTs_handler_run env file code st meta Hts Hclients Hmeta Hcode)
    as [out [Hrun Hsent]].
  rewrite Hrun. simpl. now split.
Qed.

Lemma serverTs_update_names_its_module_witness :
  sends (snd (ServerTs.handler (Scenario.env Scenario.nothing) "change"
                "/proj/client/b.ts" (Scenario.serving [1; 2]))) =
    map (fun socket =>
           (socket,
            stringifyMessage
              (update (wrapModule "__hmr3" "client/b.ts" "/* client/b.ts */")
                      "client/b.ts")))
        [1; 2]
  /\ snd (fst (ServerTs.handler (Scenario.env Scenario.nothing) "change"
                 "/proj/client/b.ts" (Scenario.serving [1; 2])))
     = withIdx (Scenario.serving [1; 2]) 4.
Proof.
  apply (serverTs_update_names_its_module (Scenario.env Scenario.nothing)
           "/proj/client/b.ts" "/* client/b.ts */" (Scenario.serving [1; 2])
           (Scenario.chainGraph "client/a.ts" "client/b.ts" "client/c.ts")).
  - reflexivity.
  - discriminate.
  - reflexivity.
  - reflexivity.
Defined.

(** For a module nobody imports, the server with reverse dependencies sends
    what [server.ts] sends, with the body inside the guard: one [update] per
    client, with the same [id] and the same wrapped module. *)
Theorem leaf_update_guards_serverTs_update (env : Environment) (file code : string)
    (st : sharedStateT) (meta : ModuleMeta) :
  endsWith file ".ts" = true ->
  clients st <> [] ->
  moduleMeta st = Some meta ->
  0 < stackDepth env ->
  (forall p, ~ parentEdge meta (stripRoot env file) p) ->
  path_join env (ROOT env) (stripRoot env file) = file ->
  transform env file (stripRoot env file) true (aliasesOf meta (stripRoot env file))
    = Some code ->
  let body :=
    wrapModule ("__hmr" +++ string_of_nat (_idx st)) (stripRoot env file) code in
  sends (snd (ServerTs.handler env "change" file st)) =
    map (fun socket =>
           (socket, stringifyMessage (update body (stripRoot env file))))
        (clients st)
  /\ sends (snd (handler env "change" file st)) =
    map (fun socket =>
           (socket,
            stringifyMessage
              (update (guardOpen +++ body +++ guardClose) (stripRoot env file))))
        (clients st).
Proof.
  intros Hts Hclients Hmeta Hstack Hleaf Hjoin Hcode body. split.
  - destruct (serverTs_handler_run env file code st meta Hts Hclients Hmeta Hcode)
      as [out [Hrun Hsent]].
    rewrite Hrun. exact Hsent.
  - assert (Hres : resolve (stackDepth env) meta (stripRoot env file)
                   = Some [stripRoot env file]).
    { destruct (stackDepth env) as [|n]; [lia|].
      unfold resolve. rewrite walk_S.
      destruct (parentsOf meta (stripRoot env file)) as [[|p ps]|] eqn:P;
        try reflexivity.
      exfalso. apply (Hleaf p). exists (p :: ps). split; [assumption|now left]. }
    rewrite (handler_change env file st meta _ Hts Hclients Hmeta Hres).
    assert (Ht : forall x, In x [stripRoot env file] ->
                   transformed env meta x = Some ((fun _ => code) x)).
    { intros x [<-|[]]. unfold transformed, filenameOf, sourceOf.
      now rewrite Hjoin. }
    destruct (updateChain_succeeds env meta (stripRoot env file) (fun _ => code)
                [stripRoot env file] st Hmeta Ht) as [out [Hrun Hsent]].
    unfold catch. rewrite Hrun. cbn [snd]. rewrite sends_app. cbn [sends app].
    rewrite Hsent. simpl. rewrite app_nil_r.
    unfold updateFor, filenameOf, sourceOf. rewrite Hjoin. reflexivity.
Qed.

Lemma leaf_update_guards_serverTs_update_witness :
  sends (snd (ServerTs.handler (Scenario.env Scenario.nothing) "change"
                "/proj/client/a.ts" (Scenario.serving [1]))) =
    map (fun socket =>
           (socket,
            stringifyMessage
              (update (wrapModule "__hmr3" "client/a.ts" "/* client/a.ts */")
                      "client/a.ts")))
        [1]
  /\ sends (snd (handler (Scenario.env Scenario.nothing) "change"
                   "/proj/client/a.ts" (Scenario.serving [1]))) =
    map (fun socket =>
           (socket,
            stringifyMessage
              (update
                 (guardOpen +++ wrapModule "__hmr3" "client/a.ts" "/* client/a.ts */"
                  +++ guardClose)
                 "client/a.ts")))
        [1].
Proof.
  apply (leaf_update_guards_serverTs_update (Scenario.env Scenario.nothing)
           "/proj/client/a.ts" "/* client/a.ts */" (Scenario.serving [1])
           (Scenario.chainGraph "client/a.ts" "client/b.ts" "client/c.ts")).
  - reflexivity.
  - discriminate.
  - reflexivity.
  - vm_compute. lia.
  - intros p [ps [P _]]. discriminate P.
  - reflexivity.
  - reflexivity.
Defined.

(** ** The recovery that never runs *)

Lemma noRecovery_reloads (out : list Effect) :
  Forall noRecovery out -> reloads out = [].
Proof.
  unfold reloads. induction 1 as [|e out He _ IH]; [reflexivity|].
  destruct e; simpl in *; try assumption. now rewrite He.
Qed.

(** In every state the server reaches, [sharedState.context] is [null]; a
    change event therefore never starts a rebuild and never sends [reload],
    whether or not a transform was rejected. *)
Theorem reachable_event_never_recovers (env : Environment) (event file : string)
    (st : sharedStateT) :
  reachableState st ->
  context st = None /\
  ~ In context_rebuild (snd (handler env event file st)) /\
  reloads (snd (handler env event file st)) = [].
Proof.
  intros R. pose proof (reachableState_context st R) as Hnull.
  pose proof (handler_null_context env event file st Hnull) as H.
  split; [assumption|]. split.
  - intros Hin. rewrite Forall_forall in H. exact (H _ Hin).
  - now apply noRecovery_reloads.
Qed.

Lemma reachable_event_never_recovers_witness :
  reachableState (Scenario.serving [1; 2]) /\
  context (Scenario.serving [1; 2]) = None /\
  ~ In context_rebuild
      (snd (handler (Scenario.env (Scenario.only "client/c.ts")) "change"
              "/proj/client/c.ts" (Scenario.serving [1; 2]))) /\
  reloads
    (snd (handler (Scenario.env (Scenario.only "client/c.ts")) "change"
            "/proj/client/c.ts" (Scenario.serving [1; 2]))) = [].
Proof.
  split; [apply serving_reachable|].
  apply (reachable_event_never_recovers (Scenario.env (Scenario.only "client/c.ts"))
           "change" "/proj/client/c.ts" (Scenario.serving [1; 2])).
  apply serving_reachable.
Defined.

(** ** While other callbacks run *)

Section Amid.

Variable env : Environment.

Lemma transformCodeAmid_quiet (file : string) (runtimeModule : bool)
    (importPaths : JsObject.t string) (st : sharedStateT) :
  transformCodeAmid env (fun st => st) file runtimeModule importPaths st =
  transformCode env file runtimeModule importPaths st.
Proof.
  unfold transformCodeAmid, transformCode, bind, emit, modify, throw, ret,
    nextContextVariableName.
  now destruct (transform env file (stripRoot env file) runtimeModule importPaths).
Qed.

Lemma updateStepAmid_quiet (strippedPath modulePath : string) (st : sharedStateT) :
  updateStepAmid env (fun st => st) strippedPath modulePath st =
  updateStep env strippedPath modulePath st.
Proof.
  unfold updateStepAmid, updateStep. apply bind_ext. intros importPaths st'.
  unfold bind. now rewrite transformCodeAmid_quiet.
Qed.

Lemma updateChainAmid_quiet (strippedPath : string) (modules : list string) :
  forall st,
    updateChainAmid env [] strippedPath modules st =
    updateChain env strippedPath modules st.
Proof.
  induction modules as [|m modules IH]; intros st; simpl; [reflexivity|].
  unfold bind. rewrite updateStepAmid_quiet.
  destruct (updateStep env strippedPath m st) as [[[u|e] st1] out1]; [|reflexivity].
  now rewrite IH.
Qed.

(** With nothing else running while its links await, an event is handled as
    [handler] says. *)
Lemma handlerAmid_quiet (event file : string) (st : sharedStateT) :
  handlerAmid env [] event file st = handler env event file st.
Proof.
  unfold handlerAmid, handler.
  destruct (negb (String.eqb event "change") || negb (endsWith file ".ts"));
    [reflexivity|].
  apply bind_ext. intros _ st1. apply bind_ext. intros connected st2.
  destruct connected as [|s l]; [reflexivity|].
  apply bind_ext. intros _ st3. apply bind_ext. intros meta st4.
  destruct (resolve (stackDepth env) meta (stripRoot env file)) as [rd|];
    [|reflexivity].
  apply bind_ext. intros _ st5. unfold catch.
  now rewrite updateChainAmid_quiet.
Qed.







End Amid.



(** A client accepted while [client/b.ts] is transformed gets the updates
    made from [client/b.ts] and [client/a.ts], not the one made from
    [client/c.ts], which had gone out. *)
Lemma late_client_misses_first_update :
  sends (snd (handlerAmid (Scenario.env Scenario.nothing)
                [fun st => st; accepting 3] "change" "/proj/client/c.ts"
                (Scenario.serving [1; 2]))) =
  [(1, Cases.wireText "__hmr3" "client/c.ts" "client/c.ts");
   (2, Cases.wireText "__hmr3" "client/c.ts" "client/c.ts");
   (1, Cases.wireText "__hmr4" "client/b.ts" "client/c.ts");
   (2, Cases.wireText "__hmr4" "client/b.ts" "client/c.ts");
   (3, Cases.wireText "__hmr4" "client/b.ts" "client/c.ts");
   (1, Cases.wireText "__hmr5" "client/a.ts" "client/c.ts");
   (2, Cases.wireText "__hmr5" "client/a.ts" "client/c.ts");
   (3, Cases.wireText "__hmr5" "client/a.ts" "client/c.ts")].
Proof. vm_compute. reflexivity. Qed.
